(** * FireTrack streak calculation (functions/src/index.ts, calculateStreaks)

    A shallow embedding of the Cloud Function that recomputes the
    [currentStreak], [longestStreak] and [lastEntryAt] fields of every habit
    from its most recent entries, together with the ECMAScript date and
    string primitives the function is written with. *)

From Stdlib Require Import ZArith List String Ascii Bool Lia.
Import ListNotations.

Open Scope string_scope.
Open Scope list_scope.
Open Scope Z_scope.

(** ** JavaScript numbers

    Every number the function handles is an integer (a time value in
    milliseconds, a day count, a counter) or NaN; all of them stay far below
    2^53 in absolute value, where IEEE doubles are exact. *)

Inductive number : Type :=
| Num (z : Z)
| NaN.

Module JS.

(** [a - b] *)
Definition sub (a b : number) : number :=
  match a, b with
  | Num x, Num y => Num (x - y)
  | _, _ => NaN
  end.

(** [a + b] *)
Definition add (a b : number) : number :=
  match a, b with
  | Num x, Num y => Num (x + y)
  | _, _ => NaN
  end.

(** [Math.round(a / d)] for a positive integer constant [d]: the nearest
    integer, a tie going to the larger one.  The function divides
    differences of UTC midnights by the length of a day, where the
    quotient is whole, and the library divides nanoseconds by 10^6, where
    the double quotient is a tie exactly when the rational one is. *)
Definition round_div (a : number) (d : Z) : number :=
  match a with
  | Num x => Num ((2 * x + d) / (2 * d))
  | NaN => NaN
  end.

(** [a > b]; false as soon as one side is NaN. *)
Definition gt (a : number) (b : Z) : bool :=
  match a with
  | Num x => b <? x
  | NaN => false
  end.

(** [a === b] against an integer literal; NaN equals nothing. *)
Definition eqq (a : number) (b : Z) : bool :=
  match a with
  | Num x => x =? b
  | NaN => false
  end.

(** [v ?? d] on a possibly undefined array element. *)
Definition nullish (v : option number) (d : number) : number :=
  match v with
  | Some n => n
  | None => d
  end.

End JS.

(** ** Strings: [slice], [split], [Number] *)

Module Str.

(** [s.slice(0, n)] *)
Definition slice0 (n : nat) (s : string) : string := substring 0 n s.

(** [s.split(sep)] for a one-character separator: always at least one
    part, an empty part between two adjacent separators. *)
Fixpoint split (sep : ascii) (s : string) : list string :=
  match s with
  | EmptyString => [EmptyString]
  | String c s' =>
      if Ascii.eqb c sep then EmptyString :: split sep s'
      else match split sep s' with
           | p :: ps => String c p :: ps
           | [] => [String c EmptyString]
           end
  end.

Definition is_digit (c : ascii) : bool :=
  let n := N_of_ascii c in ((48 <=? n) && (n <=? 57))%N.

Definition digit_value (c : ascii) : Z := Z.of_N (N_of_ascii c) - 48.

(** Value of a run of decimal digits, [None] when another character
    occurs. *)
Fixpoint digits_value (acc : Z) (s : string) : option Z :=
  match s with
  | EmptyString => Some acc
  | String c s' =>
      if is_digit c then digits_value (10 * acc + digit_value c) s'
      else None
  end.

Definition unsigned_literal (s : string) : number :=
  match s with
  | EmptyString => NaN
  | _ => match digits_value 0 s with
         | Some v => Num v
         | None => NaN
         end
  end.

(** [Number(s)] on the alphabet the date keys are made of (decimal
    digits, ["+"] and ["-"]): the empty string is 0, an optionally signed
    run of digits is its value, anything else is NaN.  Literals outside
    that alphabet (fractions, exponents, hexadecimal, [Infinity], white
    space) never reach it from [toDateKey]. *)
Definition Number (s : string) : number :=
  match s with
  | EmptyString => Num 0
  | String "+"%char s' => unsigned_literal s'
  | String "-"%char s' =>
      match unsigned_literal s' with
      | Num v => Num (- v)
      | NaN => NaN
      end
  | _ => unsigned_literal s
  end.

Definition digit_char (d : Z) : ascii := ascii_of_N (Z.to_N (48 + d mod 10)).

(** [n] written with exactly [width] decimal digits, zero padded on the
    left (more significant digits are dropped, which the callers rule
    out). *)
Fixpoint pad (width : nat) (n : Z) : string :=
  match width with
  | O => EmptyString
  | S w => (pad w (n / 10) ++ String (digit_char n) EmptyString)%string
  end.

End Str.

(** ** ECMAScript dates (ECMA-262, "Time Values and Time Range") *)

Module Date.

Definition msPerDay : Z := 86400000.

Definition Day (t : Z) : Z := t / msPerDay.

Definition DayFromYear (y : Z) : Z :=
  365 * (y - 1970) + (y - 1969) / 4 - (y - 1901) / 100 + (y - 1601) / 400.

Definition InLeapYear (y : Z) : bool :=
  (y mod 4 =? 0) && (negb (y mod 100 =? 0) || (y mod 400 =? 0)).

(** The largest [y] with [DayFromYear y <= d]: the estimate from the mean
    year length is off by at most one. *)
Definition YearFromDay (d : Z) : Z :=
  let y := 1970 + (400 * d) / 146097 in
  if DayFromYear (y + 1) <=? d then y + 1
  else if DayFromYear y <=? d then y
  else y - 1.

Definition YearFromTime (t : Z) : Z := YearFromDay (Day t).

Definition DayWithinYear (t : Z) : Z := Day t - DayFromYear (YearFromTime t).

(** Day-in-year on which month [m] (0 = January) starts. *)
Definition month_start (leap : bool) (m : Z) : Z :=
  let l := if leap then 1 else 0 in
  match m with
  | 0 => 0
  | 1 => 31
  | 2 => 59 + l
  | 3 => 90 + l
  | 4 => 120 + l
  | 5 => 151 + l
  | 6 => 181 + l
  | 7 => 212 + l
  | 8 => 243 + l
  | 9 => 273 + l
  | 10 => 304 + l
  | _ => 334 + l
  end.

Definition MonthFromTime (t : Z) : Z :=
  let d := DayWithinYear t in
  let leap := InLeapYear (YearFromTime t) in
  if d <? month_start leap 1 then 0
  else if d <? month_start leap 2 then 1
  else if d <? month_start leap 3 then 2
  else if d <? month_start leap 4 then 3
  else if d <? month_start leap 5 then 4
  else if d <? month_start leap 6 then 5
  else if d <? month_start leap 7 then 6
  else if d <? month_start leap 8 then 7
  else if d <? month_start leap 9 then 8
  else if d <? month_start leap 10 then 9
  else if d <? month_start leap 11 then 10
  else 11.

Definition DateFromTime (t : Z) : Z :=
  DayWithinYear t
  - month_start (InLeapYear (YearFromTime t)) (MonthFromTime t) + 1.

Definition HourFromTime (t : Z) : Z := (t / 3600000) mod 24.
Definition MinFromTime (t : Z) : Z := (t / 60000) mod 60.
Definition SecFromTime (t : Z) : Z := (t / 1000) mod 60.
Definition msFromTime (t : Z) : Z := t mod 1000.

(** [TimeClip]: a time value further than 8.64e15 ms from the epoch is
    NaN. *)
Definition TimeClip (t : number) : number :=
  match t with
  | Num v => if Z.abs v <=? 8640000000000000 then Num v else NaN
  | NaN => NaN
  end.

(** [MakeDay(year, month, date)]: months beyond 0..11 carry into the
    year. *)
Definition MakeDay (year month date : number) : number :=
  match year, month, date with
  | Num y, Num m, Num dt =>
      let ym := y + m / 12 in
      let mn := m mod 12 in
      Num (DayFromYear ym + month_start (InLeapYear ym) mn + dt - 1)
  | _, _, _ => NaN
  end.

(** [MakeFullYear]: a year between 0 and 99 means 1900 + year. *)
Definition MakeFullYear (year : number) : number :=
  match year with
  | Num y => if (0 <=? y) && (y <=? 99) then Num (1900 + y) else Num y
  | NaN => NaN
  end.

(** [Date.UTC(year, month, date)], the time of day left at midnight. *)
Definition UTC (year month date : number) : number :=
  match MakeDay (MakeFullYear year) month date with
  | Num day => TimeClip (Num (day * msPerDay))
  | NaN => NaN
  end.

(** The year of an ISO string: four digits from 0 to 9999, otherwise a
    sign and six digits. *)
Definition iso_year (y : Z) : string :=
  if (0 <=? y) && (y <=? 9999) then Str.pad 4 y
  else if y <? 0 then String "-"%char (Str.pad 6 (- y))
  else String "+"%char (Str.pad 6 y).

(** The text [toISOString] produces for a valid time value:
    YYYY-MM-DDTHH:mm:ss.sssZ. *)
Definition iso_string (t : Z) : string :=
  (iso_year (YearFromTime t) ++ "-" ++ Str.pad 2 (MonthFromTime t + 1)
    ++ "-" ++ Str.pad 2 (DateFromTime t)
    ++ "T" ++ Str.pad 2 (HourFromTime t)
    ++ ":" ++ Str.pad 2 (MinFromTime t)
    ++ ":" ++ Str.pad 2 (SecFromTime t)
    ++ "." ++ Str.pad 3 (msFromTime t) ++ "Z")%string.

End Date.

(** ** Effects: the ambient clock and exceptions

    [new Date()] and [Timestamp.now()] read the system clock; successive
    reads see the successive values of [clock].  [toISOString] throws a
    [RangeError] on an invalid date. *)

Inductive Exn : Type :=
| RangeError.

Inductive Result (A : Type) : Type :=
| Ok (a : A)
| Throw (e : Exn).

Arguments Ok {A} a.
Arguments Throw {A} e.

Record World : Type := mkWorld {
  clock : nat -> Z;   (* the n-th reading of the system clock, in ms *)
  reads : nat         (* how many readings were taken so far *)
}.

Definition Eff (A : Type) : Type := World -> Result A * World.

Definition ret {A} (a : A) : Eff A := fun w => (Ok a, w).

Definition bind {A B} (m : Eff A) (k : A -> Eff B) : Eff B :=
  fun w =>
    match m w with
    | (Ok a, w') => k a w'
    | (Throw e, w') => (Throw e, w')
    end.

Definition throw {A} (e : Exn) : Eff A := fun w => (Throw e, w).

Notation "x <- m ;; k" := (bind m (fun x => k))
  (at level 61, m at next level, right associativity).

(** The current clock reading. *)
Definition now (w : World) : Z := clock w (reads w).

Definition tick (w : World) : World :=
  {| clock := clock w; reads := S (reads w) |}.

Definition read_clock : Eff Z := fun w => (Ok (now w), tick w).

(** A world whose clock stands still at [t]. *)
Definition frozen (t : Z) : World := {| clock := fun _ => t; reads := 0 |}.

(** ** Firestore values and documents *)

Definition valid_timestamp (s n : Z) : bool :=
  (-62135596800 <=? s) && (s <=? 253402300799)
  && (0 <=? n) && (n <=? 999999999).

(** A Firestore [Timestamp]: seconds since the epoch and nanoseconds, in the
    range its constructor enforces (years 0001 to 9999). *)
Record Timestamp : Type := mkTimestamp {
  seconds : Z;
  nanoseconds : Z;
  timestamp_range : valid_timestamp seconds nanoseconds = true
}.

(** What [doc.get(field)] can return, as far as the function tells values
    apart. *)
Inductive FieldValue : Type :=
| VUndefined                      (* the field is absent *)
| VNull
| VTimestamp (t : Timestamp)
| VOther (json : string).         (* any other value: string, number, map *)

(** An entry document, [habits/{habitId}/entries/{entryId}]. *)
Record EntryDoc : Type := mkEntry {
  performedAt : FieldValue;
  note : option string;
  mood : option string
}.

(** The fields of a habit document the function reads or writes; the merge
    write leaves every other field as it was. *)
Record HabitDoc : Type := mkHabit {
  currentStreak : option Z;
  longestStreak : option Z;
  lastEntryAt : FieldValue;
  updatedAt : option Z   (* the clock reading [Timestamp.now()] wraps *)
}.

(** A JavaScript [Date]: its time value, NaN for an invalid date. *)
Definition JSDate : Type := number.

(** [new Date(value)] *)
Definition newDate (value : number) : JSDate := Date.TimeClip value.

(** [new Date()] *)
Definition newDateNow : Eff JSDate :=
  t <- read_clock ;; ret (Num t).

(** [date.toISOString()] *)
Definition toISOString (date : JSDate) : Eff string :=
  match date with
  | Num t => ret (Date.iso_string t)
  | NaN => throw RangeError
  end.

(** [timestamp.toDate()]: millisecond precision. *)
Definition toDate (ts : Timestamp) : JSDate :=
  newDate (JS.add (Num (seconds ts * 1000))
                  (JS.round_div (Num (nanoseconds ts)) 1000000)).

(** ** The function *)

Definition DAY_MS : Z := 24 * 60 * 60 * 1000.

Definition DateKey : Type := string.

(** [toDateKey]: the ISO-8601 date key (yyyy-mm-dd) of a date. *)
Definition toDateKey (date : JSDate) : Eff DateKey :=
  iso <- toISOString date ;; ret (Str.slice0 10 iso).

(** [toUtc]: the UTC midnight timestamp of a date key. *)
Definition toUtc (dateKey : DateKey) : number :=
  let parts := map Str.Number (Str.split "-"%char dateKey) in
  let year := nth 0 parts NaN in
  let month := nth_error parts 1 in
  let day := nth_error parts 2 in
  Date.UTC year (JS.sub (JS.nullish month (Num 1)) (Num 1))
           (JS.nullish day (Num 1)).

(** [Math.round((a - b) / DAY_MS)], the whole-day gap from [b] up to [a]. *)
Definition dayDiff (a b : number) : number :=
  JS.round_div (JS.sub a b) DAY_MS.

(** The [for] loop of [computeCurrentStreak], from [index] on: [rest] are
    the keys not yet visited. *)
Fixpoint currentLoop (rest : list DateKey) (streak : Z) (previousUtc : number)
  : Z :=
  match rest with
  | [] => streak
  | key :: rest' =>
      let currentUtc := toUtc key in
      let diff := dayDiff previousUtc currentUtc in
      if JS.eqq diff 0 then currentLoop rest' streak previousUtc
      else if JS.eqq diff 1 then currentLoop rest' (streak + 1) currentUtc
      else streak
  end.

(** [computeCurrentStreak]: the current streak length from a descending
    list of date keys. *)
Definition computeCurrentStreak (dateKeys : list DateKey) : Eff Z :=
  match dateKeys with
  | [] => ret 0
  | first :: rest =>
      today <- newDateNow ;;
      todayKey <- toDateKey today ;;
      let todayUtc := toUtc todayKey in
      let firstUtc := toUtc first in
      let diffToday := dayDiff todayUtc firstUtc in
      if JS.gt diffToday 1 then ret 0
      else ret (currentLoop rest 1 firstUtc)
  end.

(** The [for ... of] loop of [computeLongestStreak]; [previousUtc] is
    [None] while it is still [null]. *)
Fixpoint longestLoop (keys : list DateKey) (longest run : Z)
    (previousUtc : option number) : Z :=
  match keys with
  | [] => longest
  | key :: keys' =>
      let currentUtc := toUtc key in
      match previousUtc with
      | None =>
          let run := 1 in
          longestLoop keys' (Z.max longest run) run (Some currentUtc)
      | Some previous =>
          let diff := dayDiff previous currentUtc in
          if JS.eqq diff 0 then longestLoop keys' longest run previousUtc
          else
            let run := if JS.eqq diff 1 then run + 1 else 1 in
            longestLoop keys' (Z.max longest run) run (Some currentUtc)
      end
  end.

(** [computeLongestStreak]: the longest streak across the date keys. *)
Definition computeLongestStreak (dateKeys : list DateKey) : Z :=
  match dateKeys with
  | [] => 0
  | _ => longestLoop dateKeys 0 0 None
  end.

(** [dateKeys[dateKeys.length - 1]], [None] for the [undefined] an empty
    array yields. *)
Definition lastKey (dateKeys : list DateKey) : option DateKey :=
  last (map Some dateKeys) None.

(** [dateKeys[dateKeys.length - 1] !== key] *)
Definition lastDiffers (dateKeys : list DateKey) (key : DateKey) : bool :=
  match lastKey dateKeys with
  | Some k => negb (String.eqb k key)
  | None => true
  end.

(** The loop over [entriesSnapshot.docs] that fills [dateKeys]. *)
Fixpoint collectLoop (docs : list EntryDoc) (dateKeys : list DateKey)
  : Eff (list DateKey) :=
  match docs with
  | [] => ret dateKeys
  | entryDoc :: docs' =>
      match performedAt entryDoc with
      | VTimestamp ts =>
          key <- toDateKey (toDate ts) ;;
          if lastDiffers dateKeys key
          then collectLoop docs' (dateKeys ++ [key])
          else collectLoop docs' dateKeys
      | _ => collectLoop docs' dateKeys
      end
  end.

(** [entriesSnapshot.docs[0]?.get("performedAt") ?? null] *)
Definition firstPerformedAt (docs : list EntryDoc) : FieldValue :=
  match docs with
  | [] => VNull
  | doc :: _ =>
      match performedAt doc with
      | VUndefined => VNull
      | v => v
      end
  end.

(** [Number(habitDoc.get("longestStreak") ?? 0)] *)
Definition previousLongestOf (habitDoc : HabitDoc) : Z :=
  match longestStreak habitDoc with
  | Some n => n
  | None => 0
  end.

(** The body of the loop over the habits: [docs] is the result of the
    entries query (ordered by [performedAt] descending, at most 120
    documents), the result is the habit document after the merge write. *)
Definition processHabit (habitDoc : HabitDoc) (docs : list EntryDoc)
  : Eff HabitDoc :=
  dateKeys <- collectLoop docs [] ;;
  currentStreak <- computeCurrentStreak dateKeys ;;
  let longestStreakCandidate := computeLongestStreak dateKeys in
  let previousLongest := previousLongestOf habitDoc in
  let longestStreak := Z.max previousLongest longestStreakCandidate in
  let lastEntryAt := firstPerformedAt docs in
  stamp <- read_clock ;;
  ret {| currentStreak := Some currentStreak;
         longestStreak := Some longestStreak;
         lastEntryAt := lastEntryAt;
         updatedAt := Some stamp |}.

(** [calculateStreaks]: every habit with its entries query result; returns
    the habit documents as written and the [processed] count. *)
Fixpoint calculateStreaks (habits : list (HabitDoc * list EntryDoc))
    (processed : Z) : Eff (list HabitDoc * Z) :=
  match habits with
  | [] => ret ([], processed)
  | (habitDoc, docs) :: habits' =>
      written <- processHabit habitDoc docs ;;
      r <- calculateStreaks habits' (processed + 1) ;;
      ret (written :: fst r, snd r)
  end.

(** * Specification vocabulary *)

(** ** Pure descriptions of the effectful steps *)

(** The time value of [ts.toDate()]. *)
Definition millis (ts : Timestamp) : Z :=
  seconds ts * 1000 + (2 * nanoseconds ts + 1000000) / 2000000.

(** The date key of a valid time value. *)
Definition dateKeyOf (t : Z) : DateKey := Str.slice0 10 (Date.iso_string t).

Definition keyOfTimestamp (ts : Timestamp) : DateKey := dateKeyOf (millis ts).

(** The entries that bear a [Timestamp]; the others are malformed
    (another kind of value) or lack the field. *)
Definition hasTimestamp (doc : EntryDoc) : bool :=
  match performedAt doc with
  | VTimestamp _ => true
  | _ => false
  end.

Fixpoint timestampsOf (docs : list EntryDoc) : list Timestamp :=
  match docs with
  | [] => []
  | doc :: docs' =>
      match performedAt doc with
      | VTimestamp ts => ts :: timestampsOf docs'
      | _ => timestampsOf docs'
      end
  end.

Definition pushKey (dateKeys : list DateKey) (key : DateKey) : list DateKey :=
  if lastDiffers dateKeys key then dateKeys ++ [key] else dateKeys.

Definition pushKeys (dateKeys : list DateKey) (keys : list DateKey)
  : list DateKey :=
  fold_left pushKey keys dateKeys.

(** The [dateKeys] array the function derives from a query result. *)
Definition dateKeysOf (docs : list EntryDoc) : list DateKey :=
  pushKeys [] (map keyOfTimestamp (timestampsOf docs)).

(** The current streak when the clock reads [t]. *)
Definition currentStreakAt (t : Z) (dateKeys : list DateKey) : Z :=
  match dateKeys with
  | [] => 0
  | first :: rest =>
      if JS.gt (dayDiff (toUtc (dateKeyOf t)) (toUtc first)) 1 then 0
      else currentLoop rest 1 (toUtc first)
  end.

(** The world after [computeCurrentStreak]: the clock is read only when
    there is a key. *)
Definition afterStreak (dateKeys : list DateKey) (w : World) : World :=
  match dateKeys with [] => w | _ :: _ => tick w end.

(** The date part of the ISO string, the first ten characters at least. *)
Definition date_text (t : Z) : string :=
  (Date.iso_year (Date.YearFromTime t) ++ "-"
     ++ Str.pad 2 (Date.MonthFromTime t + 1)
     ++ "-" ++ Str.pad 2 (Date.DateFromTime t))%string.

(** ** Day gaps and runs *)

(** The whole-day gap from [b] up to [a], as the function computes it. *)
Definition gap (a b : DateKey) : number := dayDiff (toUtc a) (toUtc b).

(** The function's test for "[b] is the day before [a]": the gap is 1. *)
Definition contig (a b : DateKey) : bool := JS.eqq (gap a b) 1.

(** The function's test for "[a] and [b] are the same day": the gap is
    0. *)
Definition sameDay (a b : DateKey) : bool := JS.eqq (gap a b) 0.

(** The UTC midnight the function computes for [a] is later than the one
    for [b]. *)
Definition newer (a b : DateKey) : bool :=
  match toUtc a, toUtc b with
  | Num x, Num y => y <? x
  | _, _ => false
  end.

Section Adjacent.
Context {A : Type} (R : A -> A -> bool).

(** [R] holds between every element and its successor. *)
Fixpoint adjacent (l : list A) : bool :=
  match l with
  | a :: (b :: _) as tl => R a b && adjacent tl
  | _ => true
  end.
End Adjacent.

(** Every step of the sequence passes the function's test for
    consecutive days. *)
Definition contiguous (keys : list DateKey) : bool := adjacent contig keys.

(** Sorted newest first, no day twice, by the UTC midnights the function
    computes. *)
Definition newestFirst (keys : list DateKey) : bool := adjacent newer keys.

(** No key is the same day as its predecessor, by the function's test. *)
Definition distinctDays (keys : list DateKey) : bool :=
  adjacent (fun a b => negb (sameDay a b)) keys.

(** Length of the longest run, by the function's test, that the sequence
    starts with. *)
Fixpoint prefixRun (keys : list DateKey) : Z :=
  match keys with
  | [] => 0
  | a :: tl =>
      match tl with
      | b :: _ => if contig a b then 1 + prefixRun tl else 1
      | [] => 1
      end
  end.

(** Length of the longest run, by the function's test, anywhere in the
    sequence. *)
Fixpoint maxRun (keys : list DateKey) : Z :=
  match keys with
  | [] => 0
  | _ :: tl => Z.max (prefixRun keys) (maxRun tl)
  end.

(** ** Calendar days, counted from 1 January 1970

    The vocabulary of the statements about sequences of days.  It is
    arithmetic on day numbers and does not use the function's own day
    difference. *)

(** The date key of the UTC day number [d]: what [toDateKey] gives for
    the midnight that starts the day, and for every time of that day. *)
Definition dayKey (d : Z) : DateKey := dateKeyOf (d * Date.msPerDay).

(** The days from 0100-01-01 to 9999-12-31. *)
Definition dayInRange (d : Z) : bool := (-683003 <=? d) && (d <? 2932897).

(** Each day is earlier than its predecessor. *)
Definition descendingDays (days : list Z) : bool :=
  adjacent (fun a b => b <? a) days.

(** Each day is the day before its predecessor. *)
Definition consecutiveDays (days : list Z) : bool :=
  adjacent (fun a b => a - b =? 1) days.

(** Number of days in the run of consecutive days the list starts with. *)
Fixpoint leadingRun (days : list Z) : Z :=
  match days with
  | [] => 0
  | a :: tl =>
      match tl with
      | b :: _ => if a - b =? 1 then 1 + leadingRun tl else 1
      | [] => 1
      end
  end.

(** Number of days in the longest run of consecutive days of the list. *)
Fixpoint longestRun (days : list Z) : Z :=
  match days with
  | [] => 0
  | _ :: tl => Z.max (leadingRun days) (longestRun tl)
  end.

(** The list with every day that repeats its predecessor removed. *)
Fixpoint collapseDays (days : list Z) : list Z :=
  match days with
  | a :: (b :: _) as tl =>
      if a =? b then collapseDays tl else a :: collapseDays tl
  | _ => days
  end.

(** The UTC day of [ts.toDate()], the instant rounded to the nearest
    millisecond. *)
Definition entryDay (ts : Timestamp) : Z := Date.Day (millis ts).

(** The UTC day of the stored instant. *)
Definition instantDay (ts : Timestamp) : Z := seconds ts / 86400.

(** ** Steps of a key sequence, by the value of the gap

    The gap is the number the function computes, [gap] above. *)

(** Every step of the sequence is a gap of exactly one. *)
Fixpoint stepsOfOne (keys : list DateKey) : Prop :=
  match keys with
  | a :: (b :: _) as tl => gap a b = Num 1 /\ stepsOfOne tl
  | _ => True
  end.

(** No step of the sequence is a gap of zero. *)
Fixpoint noZeroStep (keys : list DateKey) : Prop :=
  match keys with
  | a :: (b :: _) as tl => gap a b <> Num 0 /\ noZeroStep tl
  | _ => True
  end.

(** ** Entries in query order *)

(** [orderBy("performedAt")] on timestamps: seconds, then nanoseconds. *)
Definition ts_leb (a b : Timestamp) : bool :=
  (seconds a <? seconds b)
  || ((seconds a =? seconds b) && (nanoseconds a <=? nanoseconds b)).

(** The timestamps of a query result come newest first. *)
Definition descendingEntries (docs : list EntryDoc) : bool :=
  adjacent (fun a b => ts_leb b a) (timestampsOf docs).

(** Two timestamps on the same UTC calendar day. *)
Definition sameCalendarDay (a b : Timestamp) : Prop :=
  instantDay a = instantDay b.

(** Two timestamps whose [toDate()] values, the instants rounded to the
    nearest millisecond, are on the same UTC calendar day. *)
Definition sameDateDay (a b : Timestamp) : Prop := entryDay a = entryDay b.

(** ** Successive recalculations of one habit

    Each scheduled run sees the habit document the previous run wrote and
    whatever the entries query returns by then. *)
Fixpoint recalculate (habitDoc : HabitDoc) (runs : list (list EntryDoc))
  : Eff HabitDoc :=
  match runs with
  | [] => ret habitDoc
  | docs :: runs' =>
      written <- processHabit habitDoc docs ;;
      recalculate written runs'
  end.

(** ** Time values whose date key has a year from 100 to 9999

    From 0100-01-01T00:00:00.000Z up to 9999-12-31T23:59:59.999Z.  Earlier
    years of a [Timestamp] (1 to 99) give keys that [Date.UTC] reads as
    1901 to 1999. *)
Definition inKeyRange (t : Z) : bool :=
  (-59011459200000 <=? t) && (t <? 253402300800000).

(** Every timestamp of the query result is in that range. *)
Definition keyRangeEntries (docs : list EntryDoc) : bool :=
  forallb (fun ts => inKeyRange (millis ts)) (timestampsOf docs).

(** ** Further vocabulary: calendar dates and collapsed keys *)

(** Time values from 0000-01-01T00:00:00.000Z up to
    9999-12-31T23:59:59.999Z, whose ISO year has four digits. *)
Definition fourDigitYear (t : Z) : bool :=
  (-62167219200000 <=? t) && (t <? 253402300800000).

(** Days of month [m] (1 = January) in a common or a leap year. *)
Definition days_in_month (leap : bool) (m : Z) : Z :=
  match m with
  | 2 => if leap then 29 else 28
  | 4 | 6 | 9 | 11 => 30
  | _ => 31
  end.

(** The text yyyy-mm-dd of a year, a month and a day of the month. *)
Definition ymd_text (y m d : Z) : string :=
  (Str.pad 4 y ++ "-" ++ Str.pad 2 m ++ "-" ++ Str.pad 2 d)%string.

(** A sequence with every key that repeats its predecessor removed. *)
Fixpoint collapse (keys : list DateKey) : list DateKey :=
  match keys with
  | a :: (b :: _) as tl =>
      if String.eqb a b then collapse tl else a :: collapse tl
  | _ => keys
  end.

(** No key has the same text as its predecessor. *)
Definition noRepeats (keys : list DateKey) : bool :=
  adjacent (fun a b => negb (String.eqb a b)) keys.

(** ** Sample data

    A habit logged twice on 1 March 2024, once on 29 February and on 23,
    24 and 25 February, with one entry whose [performedAt] is a number
    (the query orders numbers below timestamps). *)

Definition entryAt (s : Z) (H : valid_timestamp s 0 = true) : EntryDoc :=
  {| performedAt := VTimestamp (mkTimestamp s 0 H);
     note := None; mood := None |}.

Definition march1_0900 : EntryDoc := entryAt 1709283600 eq_refl.
Definition march1_0500 : EntryDoc := entryAt 1709269200 eq_refl.
Definition feb29_2000 : EntryDoc := entryAt 1709236800 eq_refl.
Definition feb25_0100 : EntryDoc := entryAt 1708822800 eq_refl.
Definition feb24_0100 : EntryDoc := entryAt 1708736400 eq_refl.
Definition feb23_0300 : EntryDoc := entryAt 1708657200 eq_refl.
Definition untimed : EntryDoc :=
  {| performedAt := VOther "1709000000000"; note := None; mood := None |}.

Definition sample_docs : list EntryDoc :=
  [march1_0900; march1_0500; feb29_2000;
   feb25_0100; feb24_0100; feb23_0300; untimed].

Definition sample_keys : list DateKey :=
  ["2024-03-01"; "2024-02-29"; "2024-02-25"; "2024-02-24"; "2024-02-23"].

Definition sample_habit : HabitDoc :=
  {| currentStreak := None; longestStreak := Some 1;
     lastEntryAt := VNull; updatedAt := None |}.

(** Clocks standing at 1 March 2024 13:53:20, 2 March 00:00:00 and
    3 March 2024 13:53:20 UTC. *)
Definition on_march1 : World := frozen 1709301200000.
Definition on_march2 : World := frozen 1709337600000.
Definition on_march3 : World := frozen 1709474000000.

(** An entry in the last half millisecond of 29 February 2024
    (23:59:59.9995 UTC), one whose [performedAt] is a string (the query
    orders strings above timestamps), and entries on 1 January 100 and
    31 December 99 at midnight UTC. *)
Definition entryAtNanos (s n : Z) (H : valid_timestamp s n = true)
  : EntryDoc :=
  {| performedAt := VTimestamp (mkTimestamp s n H);
     note := None; mood := None |}.

Definition feb29_last_instant : EntryDoc :=
  entryAtNanos 1709251199 999500000 eq_refl.

Definition dated_by_text : EntryDoc :=
  {| performedAt := VOther "2024-03-02"; note := None; mood := None |}.

Definition jan1_0100 : EntryDoc := entryAt (-59011459200) eq_refl.
Definition dec31_0099 : EntryDoc := entryAt (-59011545600) eq_refl.

(** A habit without any of the fields, and one with a stored longest
    streak of 10. *)
Definition new_habit : HabitDoc :=
  {| currentStreak := None; longestStreak := None;
     lastEntryAt := VUndefined; updatedAt := None |}.

Definition veteran_habit : HabitDoc :=
  {| currentStreak := Some 0; longestStreak := Some 10;
     lastEntryAt := VUndefined; updatedAt := None |}.


(** * The browser client (lib/firebase/client.ts)

    The module that hands out the Firebase SDK clients.  Its two module
    variables and the SDK's app registry are the state.  A call into the
    SDK may throw (as [getAuth] does for an app without an API key); the
    calls that returned are logged in the order they were made. *)

Module FirebaseClient.

(** What the module takes from its runtime. *)
Class Runtime : Type := {
  jsnum : Type;                      (* JavaScript numbers *)
  Number : string -> jsnum;          (* [Number(s)] *)
  isFinite : jsnum -> bool;          (* [Number.isFinite(n)] *)
  toText : jsnum -> string;          (* a number inside a template literal *)
  env : string -> option string;     (* [process.env[name]], [None] if unset *)
  hasWindow : bool                   (* [typeof window !== "undefined"] *)
}.

Record FirebaseOptions : Type := {
  apiKey : option string;
  authDomain : option string;
  projectId : option string;
  storageBucket : option string;
  messagingSenderId : option string;
  appId : option string;
  measurementId : option string
}.

(** An app of the SDK, and the service instances that belong to one. *)
Record FirebaseApp : Type := { options : FirebaseOptions }.

Inductive Auth : Type := AuthOf (app : FirebaseApp).
Inductive Firestore : Type := FirestoreOf (app : FirebaseApp).
Inductive Storage : Type := StorageOf (app : FirebaseApp).
Inductive Functions : Type := FunctionsOf (app : FirebaseApp).

Record FirebaseClients : Type := {
  app : FirebaseApp;
  auth : Auth;
  firestore : Firestore;
  storage : Storage;
  functions : Functions
}.

(** What a call yields: a value, or an exception that unwinds to the
    caller of [getFirebaseClients] (the module has no [try]). *)
Inductive Outcome (A : Type) : Type :=
| Returned (a : A)
| Thrown.

Arguments Returned {A} a.
Arguments Thrown {A}.

Section WithRuntime.
Context {R : Runtime}.

(** The calls into the SDK that create or configure something, with the
    arguments that vary ([browserLocalPersistence] and
    [{disableWarnings: true}] are constants of the source). *)
Inductive SdkCall : Type :=
| InitializeApp (config : FirebaseOptions)
| InitializeFirestore (a : FirebaseApp) (experimentalForceLongPolling : bool)
| GetFirestore (a : FirebaseApp)
| GetAuth (a : FirebaseApp)
| GetStorage (a : FirebaseApp)
| GetFunctions (a : FirebaseApp)
| SetPersistence (au : Auth)
| ConnectAuthEmulator (au : Auth) (url : string)
| ConnectFirestoreEmulator (fs : Firestore) (host : string) (port : jsnum)
| ConnectStorageEmulator (st : Storage) (host : string) (port : jsnum)
| ConnectFunctionsEmulator (fn : Functions) (host : string) (port : jsnum).

Record State : Type := {
  firebaseClients : option FirebaseClients;   (* [let firebaseClients] *)
  emulatorsConfigured : bool;                 (* [let emulatorsConfigured] *)
  registry : list FirebaseApp;                (* what [getApps()] returns *)
  calls : list SdkCall;     (* the SDK calls that returned, oldest first *)
  throws : SdkCall -> nat -> bool;
                            (* whether this call, made as the n-th, throws *)
  attempts : nat            (* how many calls into the SDK were made *)
}.

(** The module as first evaluated, over a given SDK registry and a given
    behaviour of the SDK. *)
Definition loaded (apps : list FirebaseApp)
    (sdkThrows : SdkCall -> nat -> bool) : State :=
  {| firebaseClients := None; emulatorsConfigured := false;
     registry := apps; calls := []; throws := sdkThrows; attempts := 0 |}.

Definition attempted (s : State) : State :=
  {| firebaseClients := firebaseClients s;
     emulatorsConfigured := emulatorsConfigured s;
     registry := registry s;
     calls := calls s;
     throws := throws s;
     attempts := S (attempts s) |}.

Definition record (c : SdkCall) (s : State) : State :=
  {| firebaseClients := firebaseClients s;
     emulatorsConfigured := emulatorsConfigured s;
     registry := registry s;
     calls := calls s ++ [c];
     throws := throws s;
     attempts := attempts s |}.

Definition register (a : FirebaseApp) (s : State) : State :=
  {| firebaseClients := firebaseClients s;
     emulatorsConfigured := emulatorsConfigured s;
     registry := registry s ++ [a];
     calls := calls s;
     throws := throws s;
     attempts := attempts s |}.

(** [firebaseClients = clients] *)
Definition assignClients (clients : FirebaseClients) (s : State) : State :=
  {| firebaseClients := Some clients;
     emulatorsConfigured := emulatorsConfigured s;
     registry := registry s;
     calls := calls s;
     throws := throws s;
     attempts := attempts s |}.

(** [emulatorsConfigured = true] *)
Definition setEmulatorsConfigured (s : State) : State :=
  {| firebaseClients := firebaseClients s;
     emulatorsConfigured := true;
     registry := registry s;
     calls := calls s;
     throws := throws s;
     attempts := attempts s |}.

(** Code of the module: it reads and changes the state and returns or
    throws. *)
Definition Sdk (A : Type) : Type := State -> Outcome A * State.

Definition done {A} (a : A) : Sdk A := fun s => (Returned a, s).

Definition andThen {A B} (m : Sdk A) (k : A -> Sdk B) : Sdk B :=
  fun s =>
    match m s with
    | (Returned a, s') => k a s'
    | (Thrown, s') => (Thrown, s')
    end.

Definition modify (f : State -> State) : Sdk unit :=
  fun s => (Returned tt, f s).

Notation "x <~ m ;; k" := (andThen m (fun x => k))
  (at level 61, m at next level, right associativity).

(** A call into the SDK that gives [result] unless it throws. *)
Definition sdk {A} (c : SdkCall) (result : A) : Sdk A :=
  fun s =>
    if throws s c (attempts s) then (Thrown, attempted s)
    else (Returned result, record c (attempted s)).

Definition firebaseConfig : FirebaseOptions :=
  {| apiKey := env "NEXT_PUBLIC_FIREBASE_API_KEY";
     authDomain := env "NEXT_PUBLIC_FIREBASE_AUTH_DOMAIN";
     projectId := env "NEXT_PUBLIC_FIREBASE_PROJECT_ID";
     storageBucket := env "NEXT_PUBLIC_FIREBASE_STORAGE_BUCKET";
     messagingSenderId := env "NEXT_PUBLIC_FIREBASE_MESSAGING_SENDER_ID";
     appId := env "NEXT_PUBLIC_FIREBASE_APP_ID";
     measurementId := env "NEXT_PUBLIC_FIREBASE_MEASUREMENT_ID" |}.

Definition emulatorHost : string :=
  match env "NEXT_PUBLIC_FIREBASE_EMULATOR_HOST" with
  | Some host => host
  | None => "127.0.0.1"
  end.

(** [process.env.NAME === "true"] *)
Definition envIsTrue (name : string) : bool :=
  match env name with
  | Some v => String.eqb v "true"
  | None => false
  end.

(** [getPort] *)
Definition getPort (name fallback : string) : jsnum :=
  let envKey := ("NEXT_PUBLIC_FIREBASE_" ++ name ++ "_PORT")%string in
  let value := env envKey in
  let numeric :=
    match value with
    | Some v => if String.eqb v "" then None else Some (Number v)
    | None => None
    end in
  match numeric with
  | Some n => if isFinite n then n else Number fallback
  | None => Number fallback
  end.

(** [initializeApp(config)]: the new app joins the registry. *)
Definition initializeApp (config : FirebaseOptions) : Sdk FirebaseApp :=
  a <~ sdk (InitializeApp config) {| options := config |} ;;
  _ <~ modify (register a) ;;
  done a.

(** [ensureClients] *)
Definition ensureClients : Sdk FirebaseClients :=
  fun s =>
    match firebaseClients s with
    | Some clients => (Returned clients, s)
    | None =>
        let existingApps := registry s in
        (a <~ match existingApps with
              | first :: _ => done first
              | [] => initializeApp firebaseConfig
              end ;;
         fs <~ match existingApps with
               | _ :: _ => sdk (GetFirestore a) (FirestoreOf a)
               | [] =>
                   sdk (InitializeFirestore a
                          (envIsTrue "NEXT_PUBLIC_FIREBASE_FORCE_LONG_POLLING"))
                       (FirestoreOf a)
               end ;;
         au <~ sdk (GetAuth a) (AuthOf a) ;;
         st <~ sdk (GetStorage a) (StorageOf a) ;;
         fn <~ sdk (GetFunctions a) (FunctionsOf a) ;;
         let clients :=
           {| app := a; auth := au; firestore := fs;
              storage := st; functions := fn |} in
         _ <~ modify (assignClients clients) ;;
         done clients) s
    end.

(** [maybeConnectEmulators] *)
Definition maybeConnectEmulators (clients : FirebaseClients) : Sdk unit :=
  fun s =>
    if emulatorsConfigured s then (Returned tt, s)
    else
      let shouldUseEmulators :=
        envIsTrue "NEXT_PUBLIC_USE_FIREBASE_EMULATORS" in
      if negb shouldUseEmulators then (Returned tt, setEmulatorsConfigured s)
      else if negb hasWindow then (Returned tt, s)
      else
        (_ <~ sdk (ConnectAuthEmulator (auth clients)
                     ("http://" ++ emulatorHost ++ ":"
                        ++ toText (getPort "AUTH" "9099"))%string) tt ;;
         _ <~ sdk (ConnectFirestoreEmulator (firestore clients) emulatorHost
                     (getPort "FIRESTORE" "8080")) tt ;;
         _ <~ sdk (ConnectStorageEmulator (storage clients) emulatorHost
                     (getPort "STORAGE" "9199")) tt ;;
         _ <~ sdk (ConnectFunctionsEmulator (functions clients) emulatorHost
                     (getPort "FUNCTIONS" "5001")) tt ;;
         modify setEmulatorsConfigured) s.

(** [getFirebaseClients]; a rejection of the promise [setPersistence]
    returns is swallowed by its [catch], an exception thrown by the call
    itself is not. *)
Definition getFirebaseClients : Sdk FirebaseClients :=
  clients <~ ensureClients ;;
  _ <~ (if hasWindow then sdk (SetPersistence (auth clients)) tt
        else done tt) ;;
  _ <~ maybeConnectEmulators clients ;;
  done clients.

(** The state after [n] calls of [getFirebaseClients], whether they
    returned or threw. *)
Fixpoint after (n : nat) (s : State) : State :=
  match n with
  | O => s
  | S n' => after n' (snd (getFirebaseClients s))
  end.

(** The calls that connect a service to its emulator. *)
Definition isConnect (c : SdkCall) : bool :=
  match c with
  | ConnectAuthEmulator _ _ | ConnectFirestoreEmulator _ _ _
  | ConnectStorageEmulator _ _ _ | ConnectFunctionsEmulator _ _ _ => true
  | _ => false
  end.

Definition isInitializeApp (c : SdkCall) : bool :=
  match c with
  | InitializeApp _ => true
  | _ => false
  end.

(** The four connections [maybeConnectEmulators] makes for [clients]. *)
Definition emulatorConnections (clients : FirebaseClients) : list SdkCall :=
  [ConnectAuthEmulator (auth clients)
     ("http://" ++ emulatorHost ++ ":" ++ toText (getPort "AUTH" "9099"))%string;
   ConnectFirestoreEmulator (firestore clients) emulatorHost
     (getPort "FIRESTORE" "8080");
   ConnectStorageEmulator (storage clients) emulatorHost
     (getPort "STORAGE" "9199");
   ConnectFunctionsEmulator (functions clients) emulatorHost
     (getPort "FUNCTIONS" "5001")].

(** The app [ensureClients] settles on: the first registered one, or a
    new one with [firebaseConfig]. *)
Definition chosenApp (apps : list FirebaseApp) : FirebaseApp :=
  match apps with
  | first :: _ => first
  | [] => {| options := firebaseConfig |}
  end.

Definition clientsOf (a : FirebaseApp) : FirebaseClients :=
  {| app := a; auth := AuthOf a; firestore := FirestoreOf a;
     storage := StorageOf a; functions := FunctionsOf a |}.

(** Whether the emulators are to be connected: the flag is the text
    "true" and the code runs in a browser. *)
Definition connectsEmulators : bool :=
  envIsTrue "NEXT_PUBLIC_USE_FIREBASE_EMULATORS" && hasWindow.

(** An SDK none of whose calls throws; one whose [getAuth] always throws
    (an app without an API key); one whose third emulator connection
    throws the first time it is made. *)
Definition neverThrows : SdkCall -> nat -> bool := fun _ _ => false.

Definition getAuthThrows : SdkCall -> nat -> bool :=
  fun c _ => match c with GetAuth _ => true | _ => false end.

Definition storageEmulatorThrowsOnce : SdkCall -> nat -> bool :=
  fun c n =>
    match c with
    | ConnectStorageEmulator _ _ _ => (n <=? 8)%nat
    | _ => false
    end.

(** What holds of the state after any number of calls, for a module
    loaded over the registry [apps]. *)
Record consistent (apps : list FirebaseApp) (s : State) : Prop := {
  consistent_apps :
    (registry s = apps /\ filter isInitializeApp (calls s) = [])
    \/ (apps = [] /\ registry s = [chosenApp apps]
        /\ filter isInitializeApp (calls s) = [InitializeApp firebaseConfig]);
  consistent_clients :
    forall clients, firebaseClients s = Some clients ->
                    clients = clientsOf (chosenApp apps);
  consistent_connect :
    forall c, In c (calls s) -> isConnect c = true ->
              connectsEmulators = true
              /\ In c (emulatorConnections (clientsOf (chosenApp apps)));
  consistent_configured :
    emulatorsConfigured s = true -> connectsEmulators = true ->
    exists earlier,
      filter isConnect (calls s)
      = earlier ++ emulatorConnections (clientsOf (chosenApp apps))
}.

End WithRuntime.

(** A runtime for examples: a browser with the emulators switched on and
    the Firestore port set, numbers being the integers of [Str.Number]. *)
Definition sampleRuntime : Runtime :=
  {| jsnum := number;
     Number := Str.Number;
     isFinite := fun n => match n with Num _ => true | NaN => false end;
     toText := fun n => match n with
                        | Num z => Str.pad 4 z
                        | NaN => "NaN"
                        end;
     env := fun name =>
              if String.eqb name "NEXT_PUBLIC_USE_FIREBASE_EMULATORS"
              then Some "true"
              else if String.eqb name "NEXT_PUBLIC_FIREBASE_FIRESTORE_PORT"
              then Some "8085"
              else if String.eqb name "NEXT_PUBLIC_FIREBASE_AUTH_PORT"
              then Some "auth"
              else None;
     hasWindow := true |}.

End FirebaseClient.

(** * Properties *)

(** ** The effectful steps never throw *)

Lemma bind_ok {A B} (m : Eff A) (k : A -> Eff B) w a w' :
  m w = (Ok a, w') -> bind m k w = k a w'.
Proof. intros H. unfold bind. now rewrite H. Qed.

Lemma millis_bounds ts :
  -62135596800000 <= millis ts <= 253402300800000.
Proof.
  destruct ts as [s n H]. unfold millis, valid_timestamp in *.
  cbn [seconds nanoseconds].
  apply andb_prop in H as [H Hn2]. apply andb_prop in H as [H Hn1].
  apply andb_prop in H as [Hs1 Hs2].
  apply Z.leb_le in Hs1, Hs2, Hn1, Hn2.
  Z.div_mod_to_equations. lia.
Qed.

Lemma toDate_millis ts : toDate ts = Num (millis ts).
Proof.
  pose proof (millis_bounds ts) as Hb.
  unfold toDate, newDate, JS.add, JS.round_div, Date.TimeClip.
  change (2 * 1000000) with 2000000. fold (millis ts).
  replace (Z.abs (millis ts) <=? 8640000000000000) with true; [reflexivity|].
  symmetry. apply Z.leb_le. lia.
Qed.

Lemma toDateKey_valid t w : toDateKey (Num t) w = (Ok (dateKeyOf t), w).
Proof. reflexivity. Qed.

Lemma collectLoop_run docs : forall dateKeys w,
  collectLoop docs dateKeys w
  = (Ok (pushKeys dateKeys (map keyOfTimestamp (timestampsOf docs))), w).
Proof.
  induction docs as [|doc docs IH]; intros dateKeys w; [reflexivity|].
  simpl. destruct (performedAt doc) as [| |ts|j]; try apply IH.
  rewrite (bind_ok _ _ w (keyOfTimestamp ts) w).
  - cbn [map]. unfold pushKeys. cbn [fold_left]. fold pushKeys.
    unfold pushKey at 2.
    destruct (lastDiffers dateKeys (keyOfTimestamp ts)); apply IH.
  - rewrite toDate_millis. apply toDateKey_valid.
Qed.

Lemma computeCurrentStreak_run dateKeys w :
  computeCurrentStreak dateKeys w
  = (Ok (currentStreakAt (now w) dateKeys),
     match dateKeys with [] => w | _ :: _ => tick w end).
Proof.
  destruct dateKeys as [|first rest]; [reflexivity|].
  unfold computeCurrentStreak, currentStreakAt, newDateNow, read_clock,
    toDateKey, toISOString, bind, ret. cbv beta iota.
  fold (dateKeyOf (now w)).
  destruct (JS.gt _ 1); reflexivity.
Qed.

Lemma processHabit_run habitDoc docs w :
  processHabit habitDoc docs w
  = (Ok {| currentStreak := Some (currentStreakAt (now w) (dateKeysOf docs));
           longestStreak :=
             Some (Z.max (previousLongestOf habitDoc)
                         (computeLongestStreak (dateKeysOf docs)));
           lastEntryAt := firstPerformedAt docs;
           updatedAt := Some (now (afterStreak (dateKeysOf docs) w)) |},
     tick (afterStreak (dateKeysOf docs) w)).
Proof.
  unfold processHabit.
  rewrite (bind_ok _ _ w (dateKeysOf docs) w) by apply collectLoop_run.
  rewrite (bind_ok _ _ w _ _ (computeCurrentStreak_run _ _)).
  reflexivity.
Qed.

(** ** Day arithmetic on UTC midnights *)

(** [toUtc] yields NaN or a whole number of days. *)
Lemma toUtc_midnight key x : toUtc key = Num x -> exists d, x = d * DAY_MS.
Proof.
  unfold toUtc, Date.UTC.
  destruct (Date.MakeDay _ _ _) as [day|]; [|discriminate].
  unfold Date.TimeClip.
  destruct (Z.abs (day * Date.msPerDay) <=? 8640000000000000);
    [|discriminate].
  intros [= <-]. now exists day.
Qed.

Lemma dayDiff_days dx dy :
  dayDiff (Num (dx * DAY_MS)) (Num (dy * DAY_MS)) = Num (dx - dy).
Proof.
  unfold dayDiff, JS.sub, JS.round_div. f_equal.
  change DAY_MS with 86400000.
  symmetry. apply (Z.div_unique _ _ _ 86400000); lia.
Qed.

(** Between a day and an earlier one the gap is at least one whole day. *)
Lemma newer_gap a b :
  newer a b = true -> exists g, gap a b = Num g /\ 1 <= g.
Proof.
  unfold newer, gap.
  destruct (toUtc a) as [x|] eqn:Ha; [|discriminate].
  destruct (toUtc b) as [y|] eqn:Hb; [|discriminate].
  intros H. apply Z.ltb_lt in H.
  destruct (toUtc_midnight _ _ Ha) as [dx ->].
  destruct (toUtc_midnight _ _ Hb) as [dy ->].
  rewrite dayDiff_days. exists (dx - dy). split; [reflexivity|].
  change DAY_MS with 86400000 in H. lia.
Qed.

Lemma newer_not_sameDay a b : newer a b = true -> sameDay a b = false.
Proof.
  intros H. destruct (newer_gap _ _ H) as (g & Hg & Hle).
  unfold sameDay. rewrite Hg. simpl. apply Z.eqb_neq. lia.
Qed.

(** ** Adjacent pairs *)

Section AdjacentFacts.
Context {A : Type}.
Implicit Types (R S : A -> A -> bool) (l : list A).

Lemma adjacent_cons R a b l :
  adjacent R (a :: b :: l) = R a b && adjacent R (b :: l).
Proof. reflexivity. Qed.

Lemma adjacent_tail R a l : adjacent R (a :: l) = true -> adjacent R l = true.
Proof.
  destruct l as [|b l]; [reflexivity|].
  rewrite adjacent_cons. intros H. now apply andb_prop in H.
Qed.

Lemma adjacent_weaken R S l :
  (forall a b, R a b = true -> S a b = true) ->
  adjacent R l = true -> adjacent S l = true.
Proof.
  intros HRS. induction l as [|a [|b l] IH]; try reflexivity.
  rewrite !adjacent_cons. intros H. apply andb_prop in H as [Hab Htl].
  apply andb_true_intro. split; [now apply HRS | now apply IH].
Qed.

Lemma adjacent_app_r R l1 l2 :
  adjacent R (l1 ++ l2) = true -> adjacent R l2 = true.
Proof.
  induction l1 as [|a l1 IH]; [trivial|].
  intros H. apply IH. exact (adjacent_tail _ _ _ H).
Qed.

Lemma adjacent_app_l R l1 l2 :
  adjacent R (l1 ++ l2) = true -> adjacent R l1 = true.
Proof.
  induction l1 as [|a [|b l1] IH]; try reflexivity.
  change ((a :: b :: l1) ++ l2) with (a :: b :: (l1 ++ l2)).
  rewrite !adjacent_cons. intros H. apply andb_prop in H as [Hab Htl].
  apply andb_true_intro. split; [exact Hab | now apply IH].
Qed.
End AdjacentFacts.

Lemma newestFirst_distinctDays keys :
  newestFirst keys = true -> distinctDays keys = true.
Proof.
  apply adjacent_weaken. intros a b H. now rewrite newer_not_sameDay.
Qed.

(** ** Runs of consecutive days *)

Lemma prefixRun_cons a b tl :
  prefixRun (a :: b :: tl)
  = if contig a b then 1 + prefixRun (b :: tl) else 1.
Proof. reflexivity. Qed.

Lemma prefixRun_pos a tl : 1 <= prefixRun (a :: tl).
Proof.
  revert a. induction tl as [|b tl IH]; intros a; [simpl; lia|].
  rewrite prefixRun_cons. destruct (contig a b); [|lia].
  specialize (IH b). lia.
Qed.

Lemma prefixRun_nonneg keys : 0 <= prefixRun keys.
Proof.
  destruct keys as [|a tl]; [simpl; lia|].
  pose proof (prefixRun_pos a tl). lia.
Qed.

Lemma maxRun_cons a tl :
  maxRun (a :: tl) = Z.max (prefixRun (a :: tl)) (maxRun tl).
Proof. reflexivity. Qed.

Lemma maxRun_nonneg keys : 0 <= maxRun keys.
Proof.
  destruct keys as [|a tl]; [simpl; lia|].
  rewrite maxRun_cons. pose proof (prefixRun_pos a tl). lia.
Qed.

Lemma prefixRun_le_maxRun keys : prefixRun keys <= maxRun keys.
Proof. destruct keys; [simpl; lia|]. rewrite maxRun_cons. lia. Qed.

(** The scan of [computeCurrentStreak] counts the run the keys start
    with. *)
Lemma currentLoop_prefixRun rest : forall p streak,
  distinctDays (p :: rest) = true ->
  currentLoop rest streak (toUtc p) = streak - 1 + prefixRun (p :: rest).
Proof.
  induction rest as [|key rest IH]; intros p streak Hd; [simpl; lia|].
  unfold distinctDays in Hd. rewrite adjacent_cons in Hd.
  apply andb_prop in Hd as [Hpk Hd]. apply negb_true_iff in Hpk.
  rewrite prefixRun_cons. cbn [currentLoop].
  fold (gap p key). fold (sameDay p key). fold (contig p key).
  rewrite Hpk. destruct (contig p key).
  - rewrite (IH key (streak + 1) Hd). lia.
  - lia.
Qed.

Lemma currentLoop_ge rest : forall streak previousUtc,
  streak <= currentLoop rest streak previousUtc.
Proof.
  induction rest as [|key rest IH]; intros streak previousUtc; simpl; [lia|].
  destruct (JS.eqq _ 0); [apply IH|].
  destruct (JS.eqq _ 1); [|lia].
  specialize (IH (streak + 1) (toUtc key)). lia.
Qed.

Lemma longestLoop_ge keys : forall longest run previousUtc,
  longest <= longestLoop keys longest run previousUtc.
Proof.
  induction keys as [|key keys IH]; intros longest run previousUtc;
    simpl; [lia|].
  destruct previousUtc as [previous|].
  - destruct (JS.eqq _ 0); [apply IH|].
    etransitivity; [|apply IH]. lia.
  - etransitivity; [|apply IH]. lia.
Qed.

(** The scan of [computeLongestStreak], once past the first key, finds
    the longest run. *)
Lemma longestLoop_maxRun rest : forall p longest run,
  distinctDays (p :: rest) = true ->
  1 <= run <= longest ->
  longestLoop rest longest run (Some (toUtc p))
  = Z.max longest (Z.max (run - 1 + prefixRun (p :: rest)) (maxRun rest)).
Proof.
  induction rest as [|key rest IH]; intros p longest run Hd Hr;
    [simpl; lia|].
  unfold distinctDays in Hd. rewrite adjacent_cons in Hd.
  apply andb_prop in Hd as [Hpk Hd]. apply negb_true_iff in Hpk.
  rewrite prefixRun_cons, maxRun_cons. cbn [longestLoop].
  fold (gap p key). fold (sameDay p key). fold (contig p key).
  rewrite Hpk. pose proof (prefixRun_pos key rest) as Hpos.
  destruct (contig p key).
  - rewrite (IH key _ _ Hd) by lia. lia.
  - rewrite (IH key _ _ Hd) by lia. lia.
Qed.

Lemma computeLongestStreak_maxRun keys :
  distinctDays keys = true -> computeLongestStreak keys = maxRun keys.
Proof.
  destruct keys as [|first rest]; [reflexivity|]. intros Hd.
  unfold computeLongestStreak. cbn [longestLoop].
  rewrite (longestLoop_maxRun rest first _ _ Hd) by lia.
  rewrite maxRun_cons. pose proof (prefixRun_pos first rest). lia.
Qed.

Lemma last_default {A} (l : list A) (d d' : A) :
  l <> [] -> last l d = last l d'.
Proof.
  induction l as [|a [|b l] IH]; intros Hl; [contradiction|reflexivity|].
  change (last (a :: b :: l) d) with (last (b :: l) d).
  change (last (a :: b :: l) d') with (last (b :: l) d').
  apply IH. discriminate.
Qed.

(** The run a sequence starts with, as a segment: it is contiguous and
    cannot be extended by the key after it. *)
Lemma prefixRun_split tl : forall a,
  exists run tail,
    a :: tl = run ++ tail /\ run <> [] /\ contiguous run = true
    /\ Z.of_nat (List.length run) = prefixRun (a :: tl)
    /\ match tail with
       | [] => True
       | b :: _ => contig (last run a) b = false
       end.
Proof.
  induction tl as [|b tl IH]; intros a.
  - exists [a], []. repeat split. discriminate.
  - rewrite prefixRun_cons. destruct (contig a b) eqn:Hab.
    + destruct (IH b) as (run & tail & Heq & Hne & Hc & Hlen & Hbreak).
      destruct run as [|b' run]; [contradiction|].
      injection Heq as <- Heq.
      exists (a :: b :: run), tail. repeat split.
      * simpl. now rewrite Heq.
      * discriminate.
      * unfold contiguous in *. rewrite adjacent_cons, Hab. exact Hc.
      * rewrite <- Hlen. cbn [List.length]. lia.
      * change (last (a :: b :: run) a) with (last (b :: run) a).
        rewrite (last_default _ a b) by discriminate. exact Hbreak.
    + exists [a], (b :: tl). repeat split; [discriminate | exact Hab].
Qed.

Lemma contiguous_prefix_le run : forall tail,
  contiguous run = true ->
  Z.of_nat (List.length run) <= prefixRun (run ++ tail).
Proof.
  induction run as [|a [|b run] IH]; intros tail Hc.
  - apply prefixRun_nonneg.
  - apply prefixRun_pos.
  - unfold contiguous in Hc. rewrite adjacent_cons in Hc.
    apply andb_prop in Hc as [Hab Hc].
    change ((a :: b :: run) ++ tail) with (a :: b :: (run ++ tail)).
    rewrite prefixRun_cons, Hab.
    specialize (IH tail Hc). cbn [List.length] in *.
    change ((b :: run) ++ tail) with (b :: (run ++ tail)) in IH. lia.
Qed.

(** No contiguous segment is longer than [maxRun]. *)
Lemma maxRun_upper before : forall run after,
  contiguous run = true ->
  Z.of_nat (List.length run) <= maxRun (before ++ run ++ after).
Proof.
  induction before as [|x before IH]; intros run after Hc.
  - etransitivity; [apply (contiguous_prefix_le run after Hc)|].
    apply prefixRun_le_maxRun.
  - change ((x :: before) ++ run ++ after)
      with (x :: (before ++ run ++ after)).
    rewrite maxRun_cons. specialize (IH run after Hc). lia.
Qed.

(** Some contiguous segment has length [maxRun]. *)
Lemma maxRun_attained keys :
  exists before run after,
    keys = before ++ run ++ after /\ contiguous run = true
    /\ Z.of_nat (List.length run) = maxRun keys.
Proof.
  induction keys as [|a tl IH].
  - exists [], [], []. repeat split.
  - rewrite maxRun_cons.
    destruct (Z_le_gt_dec (maxRun tl) (prefixRun (a :: tl))) as [Hle|Hgt].
    + destruct (prefixRun_split tl a) as (run & tail & Heq & _ & Hc & Hlen & _).
      exists [], run, tail. repeat split; [exact Heq | exact Hc | lia].
    + destruct IH as (before & run & after & Heq & Hc & Hlen).
      exists (a :: before), run, after. repeat split.
      * simpl. now rewrite Heq.
      * exact Hc.
      * lia.
Qed.

(** ** Current streak against longest streak *)

Lemma currentLoop_le_longestLoop rest : forall streak longest run previousUtc,
  streak <= run -> streak <= longest ->
  currentLoop rest streak previousUtc
  <= longestLoop rest longest run (Some previousUtc).
Proof.
  induction rest as [|key rest IH]; intros streak longest run previousUtc Hr Hl;
    [exact Hl|].
  cbn [currentLoop longestLoop].
  destruct (JS.eqq (dayDiff previousUtc (toUtc key)) 0); [now apply IH|].
  destruct (JS.eqq (dayDiff previousUtc (toUtc key)) 1).
  - apply IH; lia.
  - etransitivity; [|apply longestLoop_ge]. lia.
Qed.

Lemma currentStreakAt_nonneg t dateKeys : 0 <= currentStreakAt t dateKeys.
Proof.
  destruct dateKeys as [|first rest]; [simpl; lia|].
  unfold currentStreakAt. destruct (JS.gt _ 1); [lia|].
  pose proof (currentLoop_ge rest 1 (toUtc first)). lia.
Qed.

Lemma currentStreakAt_le_longest t dateKeys :
  currentStreakAt t dateKeys <= computeLongestStreak dateKeys.
Proof.
  destruct dateKeys as [|first rest]; [simpl; lia|].
  unfold currentStreakAt, computeLongestStreak. cbn [longestLoop].
  destruct (JS.gt _ 1).
  - etransitivity; [|apply longestLoop_ge]. lia.
  - apply currentLoop_le_longestLoop; lia.
Qed.

(** C1: whatever the entries, the clock and the stored [longestStreak],
    one run of the calculation writes a [currentStreak] that is at most
    the [longestStreak] it writes, the maximum of the stored value and the
    new candidate. *)
Theorem C1_current_le_merged_longest
    (habitDoc : HabitDoc) (docs : list EntryDoc) (w : World) :
  exists written w' current longest,
    processHabit habitDoc docs w = (Ok written, w')
    /\ currentStreak written = Some current
    /\ longestStreak written = Some longest
    /\ longest = Z.max (previousLongestOf habitDoc)
                       (computeLongestStreak (dateKeysOf docs))
    /\ 0 <= current <= longest.
Proof.
  rewrite processHabit_run. do 4 eexists.
  split; [reflexivity|]. cbn [currentStreak longestStreak].
  repeat split.
  - apply currentStreakAt_nonneg.
  - pose proof (currentStreakAt_le_longest (now w) (dateKeysOf docs)). lia.
Qed.

Lemma recalculate_stored runs : forall habitDoc w previous,
  longestStreak habitDoc = Some previous ->
  exists final w' latest,
    recalculate habitDoc runs w = (Ok final, w')
    /\ longestStreak final = Some latest
    /\ previous <= latest.
Proof.
  induction runs as [|docs runs IH]; intros habitDoc w previous Hp.
  - exists habitDoc, w, previous. split; [reflexivity|]. split; [exact Hp|lia].
  - cbn [recalculate].
    rewrite (bind_ok _ _ _ _ _ (processHabit_run habitDoc docs w)).
    match goal with
    | |- context [recalculate ?h runs ?w1] =>
        destruct (IH h w1 _ eq_refl) as (final & w' & latest & Hrun & Hl & Hle)
    end.
    exists final, w', latest. split; [exact Hrun|]. split; [exact Hl|].
    unfold previousLongestOf in Hle. rewrite Hp in Hle. lia.
Qed.

(** C2: when a [longestStreak] is stored in the habit document, the value
    a run persists is the maximum of that stored value and the new
    candidate, hence never below the stored value; over any sequence of
    recalculations, each reading what the previous one wrote, the stored
    value never decreases. *)
Theorem C2_longest_is_max_of_previous_and_candidate
    (habitDoc : HabitDoc) (docs : list EntryDoc) (w : World) (previous : Z) :
  longestStreak habitDoc = Some previous ->
  (exists written w' persisted,
     processHabit habitDoc docs w = (Ok written, w')
     /\ longestStreak written = Some persisted
     /\ persisted = Z.max previous (computeLongestStreak (dateKeysOf docs))
     /\ previous <= persisted)
  /\ (forall runs : list (list EntryDoc),
        exists final w' latest,
          recalculate habitDoc runs w = (Ok final, w')
          /\ longestStreak final = Some latest
          /\ previous <= latest).
Proof.
  intros Hp. split.
  - rewrite processHabit_run. do 3 eexists.
    split; [reflexivity|]. cbn [longestStreak]. split; [reflexivity|].
    unfold previousLongestOf. rewrite Hp. split; [reflexivity|lia].
  - intros runs. now apply recalculate_stored.
Qed.

(** C10: when the newest key is today or lies after today (the gap from
    today back to it is zero or negative), the current streak is at least
    1. *)
Theorem C10_future_newest_key_counts
    (w : World) (first : DateKey) (rest : list DateKey) (g : Z) :
  gap (dateKeyOf (now w)) first = Num g ->
  g <= 0 ->
  exists streak,
    computeCurrentStreak (first :: rest) w = (Ok streak, tick w)
    /\ 1 <= streak.
Proof.
  intros Hgap Hg. rewrite computeCurrentStreak_run. unfold currentStreakAt.
  fold (gap (dateKeyOf (now w)) first). rewrite Hgap.
  replace (JS.gt (Num g) 1) with false by (symmetry; apply Z.ltb_ge; lia).
  eexists. split; [reflexivity|]. apply currentLoop_ge.
Qed.

(** ** Date keys depend on the UTC day only *)

Lemma string_app_assoc (a b c : string) :
  ((a ++ b) ++ c = a ++ (b ++ c))%string.
Proof. induction a as [|x a IH]; simpl; [reflexivity|now rewrite IH]. Qed.

Lemma string_length_app (a b : string) :
  String.length (a ++ b)%string = (String.length a + String.length b)%nat.
Proof. induction a as [|x a IH]; simpl; [reflexivity|now rewrite IH]. Qed.

Lemma slice0_app n : forall (p r : string),
  (n <= String.length p)%nat ->
  Str.slice0 n (p ++ r)%string = Str.slice0 n p.
Proof.
  unfold Str.slice0.
  induction n as [|n IH]; intros p r Hn.
  - destruct p; [destruct r|]; reflexivity.
  - destruct p as [|c p]; simpl in Hn; [lia|].
    simpl. rewrite IH by lia. reflexivity.
Qed.

Lemma pad_length width : forall n, String.length (Str.pad width n) = width.
Proof.
  induction width as [|width IH]; intros n; [reflexivity|].
  cbn [Str.pad]. rewrite string_length_app, IH. simpl. lia.
Qed.

Lemma iso_year_length y : (4 <= String.length (Date.iso_year y))%nat.
Proof.
  unfold Date.iso_year.
  destruct ((0 <=? y) && (y <=? 9999)); [now rewrite pad_length|].
  destruct (y <? 0); cbn [String.length]; rewrite pad_length; lia.
Qed.

Lemma dateKeyOf_date_text t : dateKeyOf t = Str.slice0 10 (date_text t).
Proof.
  unfold dateKeyOf, Date.iso_string.
  set (rest := ("T" ++ _)%string).
  transitivity (Str.slice0 10 (date_text t ++ rest)%string).
  - unfold date_text. now rewrite !string_app_assoc.
  - apply slice0_app. unfold date_text.
    rewrite !string_length_app, !pad_length.
    pose proof (iso_year_length (Date.YearFromTime t)).
    cbn [String.length]. lia.
Qed.

Lemma dateKeyOf_day t1 t2 :
  Date.Day t1 = Date.Day t2 -> dateKeyOf t1 = dateKeyOf t2.
Proof.
  intros H. rewrite !dateKeyOf_date_text.
  unfold date_text, Date.DateFromTime, Date.MonthFromTime,
    Date.DayWithinYear, Date.YearFromTime.
  now rewrite H.
Qed.

(** ** Query order *)

Lemma ts_leb_refl a : ts_leb a a = true.
Proof.
  unfold ts_leb. rewrite Z.eqb_refl, Z.leb_refl. apply orb_true_r.
Qed.

Lemma ts_leb_trans a b c :
  ts_leb a b = true -> ts_leb b c = true -> ts_leb a c = true.
Proof.
  unfold ts_leb. intros H1 H2.
  apply orb_prop in H1. apply orb_prop in H2.
  rewrite ?andb_true_iff, ?Z.ltb_lt, ?Z.eqb_eq, ?Z.leb_le in H1, H2.
  apply orb_true_iff.
  rewrite ?andb_true_iff, ?Z.ltb_lt, ?Z.eqb_eq, ?Z.leb_le. lia.
Qed.

Lemma timestamp_nanos ts : 0 <= nanoseconds ts <= 999999999.
Proof.
  destruct ts as [s n H]. cbn [nanoseconds]. unfold valid_timestamp in H.
  apply andb_prop in H as [H Hn2]. apply andb_prop in H as [H Hn1].
  apply Z.leb_le in Hn1, Hn2. lia.
Qed.

(** The order of the query is the order of the time values. *)
Lemma ts_leb_millis a b : ts_leb a b = true -> millis a <= millis b.
Proof.
  unfold ts_leb, millis. intros H. apply orb_prop in H.
  rewrite ?andb_true_iff, ?Z.ltb_lt, ?Z.eqb_eq, ?Z.leb_le in H.
  pose proof (timestamp_nanos a). pose proof (timestamp_nanos b).
  Z.div_mod_to_equations. lia.
Qed.

Lemma Day_mono t1 t2 : t1 <= t2 -> Date.Day t1 <= Date.Day t2.
Proof. intros H. apply Z.div_le_mono; [reflexivity|exact H]. Qed.

Lemma keyOfTimestamp_sameDateDay a b :
  sameDateDay a b -> keyOfTimestamp a = keyOfTimestamp b.
Proof. unfold sameDateDay, entryDay. apply dateKeyOf_day. Qed.

(** Outside the last half millisecond of a day, the day of [toDate()] is
    the day of the stored instant. *)
Lemma entryDay_instantDay ts :
  nanoseconds ts < 999500000 -> entryDay ts = instantDay ts.
Proof.
  intros Hn. pose proof (timestamp_nanos ts).
  unfold entryDay, instantDay, millis, Date.Day, Date.msPerDay.
  Z.div_mod_to_equations. lia.
Qed.


Lemma descending_head (l : list Timestamp) : forall a,
  adjacent (fun x y => ts_leb y x) (a :: l) = true ->
  forall x, In x (a :: l) -> ts_leb x a = true.
Proof.
  induction l as [|b l IH]; intros a Hs x Hin.
  - destruct Hin as [<-|[]]. apply ts_leb_refl.
  - rewrite adjacent_cons in Hs. apply andb_prop in Hs as [Hba Hs].
    destruct Hin as [<-|Hin]; [apply ts_leb_refl|].
    apply (ts_leb_trans _ b); [now apply IH | exact Hba].
Qed.

Lemma timestampsOf_app docs1 docs2 :
  timestampsOf (docs1 ++ docs2) = timestampsOf docs1 ++ timestampsOf docs2.
Proof.
  induction docs1 as [|doc docs1 IH]; [reflexivity|].
  simpl. destruct (performedAt doc); rewrite IH; reflexivity.
Qed.

Lemma timestampsOf_filter docs :
  timestampsOf (filter hasTimestamp docs) = timestampsOf docs.
Proof.
  induction docs as [|doc docs IH]; [reflexivity|].
  simpl. unfold hasTimestamp at 1.
  destruct (performedAt doc) eqn:Hp; simpl; rewrite ?Hp, IH; reflexivity.
Qed.

(** ** Collapsing repeated keys *)

Lemma lastKey_snoc l k : lastKey (l ++ [k]) = Some k.
Proof.
  unfold lastKey. rewrite map_app. simpl. apply last_last.
Qed.

Lemma lastKey_pushKey acc k : lastKey (pushKey acc k) = Some k.
Proof.
  unfold pushKey, lastDiffers.
  destruct (lastKey acc) as [k'|] eqn:Hk; cbn.
  - destruct (String.eqb k' k) eqn:E; cbn.
    + apply String.eqb_eq in E. now subst.
    + apply lastKey_snoc.
  - apply lastKey_snoc.
Qed.

Lemma pushKey_same acc k : lastKey acc = Some k -> pushKey acc k = acc.
Proof.
  intros H. unfold pushKey, lastDiffers.
  now rewrite H, String.eqb_refl.
Qed.

Lemma pushKeys_app acc l1 l2 :
  pushKeys acc (l1 ++ l2) = pushKeys (pushKeys acc l1) l2.
Proof. apply fold_left_app. Qed.

(** A key right after a key of the same text adds nothing. *)
Lemma pushKeys_repeat_after acc l1 k l2 :
  pushKeys acc ((l1 ++ [k]) ++ k :: l2) = pushKeys acc ((l1 ++ [k]) ++ l2).
Proof.
  rewrite !pushKeys_app.
  change (pushKeys (pushKeys acc l1) [k]) with (pushKey (pushKeys acc l1) k).
  unfold pushKeys at 1 3. cbn [fold_left].
  now rewrite (pushKey_same (pushKey _ k) k) by apply lastKey_pushKey.
Qed.

(** A key right before a key of the same text adds nothing. *)
Lemma pushKeys_repeat_before acc l1 k l2 :
  pushKeys acc (l1 ++ k :: k :: l2) = pushKeys acc (l1 ++ k :: l2).
Proof.
  rewrite !pushKeys_app. unfold pushKeys at 1 3. cbn [fold_left].
  now rewrite (pushKey_same (pushKey _ k) k) by apply lastKey_pushKey.
Qed.

Lemma descending_last (l : list Timestamp) : forall z,
  adjacent (fun x y => ts_leb y x) (l ++ [z]) = true ->
  forall y, In y (l ++ [z]) -> ts_leb z y = true.
Proof.
  induction l as [|a l IH]; intros z Hs y Hin.
  - destruct Hin as [<-|[]]. apply ts_leb_refl.
  - change ((a :: l) ++ [z]) with (a :: (l ++ [z])) in *.
    destruct Hin as [<-|Hin].
    + apply (descending_head _ _ Hs). right. apply in_or_app. right. now left.
    + apply IH; [exact (adjacent_tail _ _ _ Hs) | exact Hin].
Qed.

(** In a descending list, a timestamp inserted on a day that is already
    present stands next to a timestamp of that day. *)
Lemma same_day_neighbour (T1 T2 : list Timestamp) (x e : Timestamp) :
  adjacent (fun a b => ts_leb b a) (T1 ++ x :: T2) = true ->
  In e (T1 ++ T2) ->
  sameDateDay e x ->
  (exists T1' z, T1 = T1' ++ [z] /\ sameDateDay z x)
  \/ (exists z T2', T2 = z :: T2' /\ sameDateDay z x).
Proof.
  intros Hs Hin Hday. unfold sameDateDay, entryDay in *.
  apply in_app_or in Hin as [Hin|Hin].
  - left. destruct (exists_last (l := T1)) as (T1' & z & ->).
    { intros ->. contradiction. }
    exists T1', z. split; [reflexivity|].
    assert (Hze : ts_leb z e = true).
    { apply (descending_last T1'); [|exact Hin].
      exact (adjacent_app_l _ _ _ Hs). }
    assert (Hxz : ts_leb x z = true).
    { rewrite <- app_assoc in Hs. apply adjacent_app_r in Hs.
      cbn [app] in Hs. rewrite adjacent_cons in Hs.
      now apply andb_prop in Hs. }
    apply ts_leb_millis, Day_mono in Hze, Hxz. lia.
  - right. destruct T2 as [|z T2']; [contradiction|].
    exists z, T2'. split; [reflexivity|].
    apply adjacent_app_r in Hs. rewrite adjacent_cons in Hs.
    apply andb_prop in Hs as [Hzx Hs].
    pose proof (descending_head _ _ Hs e Hin) as Hez.
    apply ts_leb_millis, Day_mono in Hez, Hzx. lia.
Qed.

Lemma dateKeysOf_insert_same_day
    (before after : list EntryDoc) (extra : EntryDoc) (tsx tse : Timestamp) :
  performedAt extra = VTimestamp tsx ->
  In tse (timestampsOf (before ++ after)) ->
  sameDateDay tse tsx ->
  descendingEntries (before ++ extra :: after) = true ->
  dateKeysOf (before ++ extra :: after) = dateKeysOf (before ++ after).
Proof.
  intros Hp Hin Hday Hs. unfold descendingEntries, dateKeysOf in *.
  rewrite !timestampsOf_app in *. cbn [timestampsOf] in *. rewrite Hp in *.
  destruct (same_day_neighbour _ _ _ _ Hs Hin Hday)
    as [(T1' & z & -> & Hz)|(z & T2' & -> & Hz)];
    apply keyOfTimestamp_sameDateDay in Hz.
  - rewrite !map_app. cbn [map]. rewrite Hz. apply pushKeys_repeat_after.
  - rewrite !map_app. cbn [map]. rewrite Hz. apply pushKeys_repeat_before.
Qed.

(** ** The remaining claims *)

(** C6 (as amended): the current streak reads the day from the ambient
    clock; given that reading the calculation is deterministic: two runs
    on the same habit document and the same entries, under clocks that
    show the same UTC day, write the same [currentStreak], [longestStreak]
    and [lastEntryAt]. *)
Theorem C6_deterministic_given_clock_day
    (habitDoc : HabitDoc) (docs : list EntryDoc) (w1 w2 : World) :
  dateKeyOf (now w1) = dateKeyOf (now w2) ->
  exists written1 written2 w1' w2',
    processHabit habitDoc docs w1 = (Ok written1, w1')
    /\ processHabit habitDoc docs w2 = (Ok written2, w2')
    /\ currentStreak written1 = currentStreak written2
    /\ longestStreak written1 = longestStreak written2
    /\ lastEntryAt written1 = lastEntryAt written2.
Proof.
  intros Hday. rewrite !processHabit_run. do 4 eexists.
  split; [reflexivity|]. split; [reflexivity|].
  cbn [currentStreak longestStreak lastEntryAt]. repeat split.
  unfold currentStreakAt. now rewrite Hday.
Qed.

(** C7 (as amended): after a run on an empty query result [lastEntryAt]
    is null, whatever it was before; on a result in query order whose
    first document bears a timestamp, it is that timestamp, and no entry
    of the result is newer. *)
Theorem C7_lastEntryAt_is_newest_instant (habitDoc : HabitDoc) (w : World) :
  (exists written w',
     processHabit habitDoc [] w = (Ok written, w')
     /\ lastEntryAt written = VNull)
  /\ (forall doc docs newest,
        performedAt doc = VTimestamp newest ->
        descendingEntries (doc :: docs) = true ->
        exists written w',
          processHabit habitDoc (doc :: docs) w = (Ok written, w')
          /\ lastEntryAt written = VTimestamp newest
          /\ (forall ts, In ts (timestampsOf (doc :: docs)) ->
                         ts_leb ts newest = true)).
Proof.
  split.
  - rewrite processHabit_run. do 2 eexists. split; reflexivity.
  - intros doc docs newest Hp Hs. rewrite processHabit_run.
    do 2 eexists. split; [reflexivity|]. split.
    + cbn [lastEntryAt firstPerformedAt]. now rewrite Hp.
    + unfold descendingEntries in Hs. cbn [timestampsOf] in *.
      rewrite Hp in *. now apply descending_head.
Qed.

Lemma calculateStreaks_total habits : forall processed w,
  exists written w',
    calculateStreaks habits processed w
    = (Ok (written, processed + Z.of_nat (List.length habits)), w').
Proof.
  induction habits as [|[habitDoc docs] habits IH]; intros processed w.
  - exists [], w. cbn [calculateStreaks List.length Z.of_nat].
    now rewrite Z.add_0_r.
  - cbn [calculateStreaks].
    rewrite (bind_ok _ _ _ _ _ (processHabit_run habitDoc docs w)).
    match goal with
    | |- context [bind (calculateStreaks habits ?n) _ ?w1] =>
        destruct (IH n w1) as (written & w' & Hrun)
    end.
    rewrite (bind_ok _ _ _ _ _ Hrun). do 2 eexists.
    unfold ret. cbn [fst snd List.length].
    replace (processed + Z.of_nat (S (List.length habits)))
      with (processed + 1 + Z.of_nat (List.length habits)) by lia.
    reflexivity.
Qed.

(** C8: an entry whose [performedAt] is missing, null or not a timestamp
    is skipped: the run on the whole query result and the run on only the
    entries that bear a timestamp both complete and write the same streak
    values; the whole function completes for every list of habits. *)
Theorem C8_malformed_entries_are_skipped
    (habitDoc : HabitDoc) (docs : list EntryDoc) (w : World) :
  (exists written kept w1 w2,
     processHabit habitDoc docs w = (Ok written, w1)
     /\ processHabit habitDoc (filter hasTimestamp docs) w = (Ok kept, w2)
     /\ currentStreak written = currentStreak kept
     /\ longestStreak written = longestStreak kept)
  /\ (exists written w', processHabit habitDoc [] w = (Ok written, w'))
  /\ (forall habits : list (HabitDoc * list EntryDoc),
        exists written w',
          calculateStreaks habits 0 w
          = (Ok (written, Z.of_nat (List.length habits)), w')).
Proof.
  repeat split.
  - rewrite !processHabit_run. do 4 eexists.
    split; [reflexivity|]. split; [reflexivity|].
    cbn [currentStreak longestStreak]. unfold dateKeysOf.
    rewrite timestampsOf_filter. split; reflexivity.
  - rewrite processHabit_run. do 2 eexists. reflexivity.
  - intros habits. apply (calculateStreaks_total habits 0 w).
Qed.

(** C9 (as amended): two entries whose [toDate()] values are on the same
    UTC calendar day have the same date key; in a query result in
    descending order, an additional entry on a day that already has an
    entry, the days being those of the [toDate()] values, changes neither
    the date keys nor, therefore, the current streak and the
    longest-streak candidate computed from them, nor the streak values
    the run writes.  For two timestamps outside the last half
    millisecond of a second, those days are the same exactly when the
    stored instants are on the same UTC calendar day. *)
Theorem C9_same_day_entry_changes_nothing
    (habitDoc : HabitDoc) (before after : list EntryDoc) (extra : EntryDoc)
    (tsx tse : Timestamp) (w : World) :
  performedAt extra = VTimestamp tsx ->
  In tse (timestampsOf (before ++ after)) ->
  sameDateDay tse tsx ->
  descendingEntries (before ++ extra :: after) = true ->
  keyOfTimestamp tse = keyOfTimestamp tsx
  /\ dateKeysOf (before ++ extra :: after) = dateKeysOf (before ++ after)
  /\ computeCurrentStreak (dateKeysOf (before ++ extra :: after)) w
     = computeCurrentStreak (dateKeysOf (before ++ after)) w
  /\ computeLongestStreak (dateKeysOf (before ++ extra :: after))
     = computeLongestStreak (dateKeysOf (before ++ after))
  /\ (exists written written' w1 w2,
        processHabit habitDoc (before ++ extra :: after) w = (Ok written, w1)
        /\ processHabit habitDoc (before ++ after) w = (Ok written', w2)
        /\ currentStreak written = currentStreak written'
        /\ longestStreak written = longestStreak written')
  /\ (forall a b : Timestamp,
        nanoseconds a < 999500000 -> nanoseconds b < 999500000 ->
        (sameCalendarDay a b <-> sameDateDay a b)).
Proof.
  intros Hp Hin Hday Hs.
  pose proof (dateKeysOf_insert_same_day _ _ _ _ _ Hp Hin Hday Hs) as Hkeys.
  rewrite !processHabit_run, Hkeys.
  split; [now apply keyOfTimestamp_sameDateDay|].
  split; [reflexivity|]. split; [reflexivity|]. split; [reflexivity|].
  split.
  - do 4 eexists. repeat split.
  - intros a b Ha Hb. unfold sameCalendarDay, sameDateDay.
    now rewrite (entryDay_instantDay a Ha), (entryDay_instantDay b Hb).
Qed.

(** ** The day gap between date keys is the difference of their UTC days *)

Lemma YearFromDay_spec d :
  Date.DayFromYear (Date.YearFromDay d) <= d
  < Date.DayFromYear (Date.YearFromDay d + 1).
Proof.
  unfold Date.YearFromDay.
  set (y := 1970 + 400 * d / 146097).
  assert (Hy : 146097 * (y - 1970) <= 400 * d
               < 146097 * (y - 1970) + 146097).
  { subst y. Z.div_mod_to_equations. lia. }
  clearbody y.
  destruct (Date.DayFromYear (y + 1) <=? d) eqn:E1.
  - apply Z.leb_le in E1. split; [exact E1|].
    unfold Date.DayFromYear in *. Z.div_mod_to_equations. lia.
  - apply Z.leb_gt in E1. destruct (Date.DayFromYear y <=? d) eqn:E2.
    + apply Z.leb_le in E2. split; assumption.
    + apply Z.leb_gt in E2.
      replace (y - 1 + 1) with y by lia. split; [|exact E2].
      unfold Date.DayFromYear in *. Z.div_mod_to_equations. lia.
Qed.

Lemma DayFromYear_step y :
  365 <= Date.DayFromYear (y + 1) - Date.DayFromYear y <= 366.
Proof. unfold Date.DayFromYear. Z.div_mod_to_equations. lia. Qed.

Lemma inKeyRange_Day t :
  inKeyRange t = true -> -683003 <= Date.Day t < 2932897.
Proof.
  unfold inKeyRange, Date.Day, Date.msPerDay. intros H.
  apply andb_prop in H as [H1 H2].
  apply Z.leb_le in H1. apply Z.ltb_lt in H2.
  Z.div_mod_to_equations. lia.
Qed.

Lemma YearFromTime_range t :
  inKeyRange t = true -> 100 <= Date.YearFromTime t <= 9999.
Proof.
  intros H. apply inKeyRange_Day in H. unfold Date.YearFromTime.
  pose proof (YearFromDay_spec (Date.Day t)) as Hy.
  set (y := Date.YearFromDay (Date.Day t)) in *. clearbody y.
  unfold Date.DayFromYear in Hy. Z.div_mod_to_equations. lia.
Qed.

Lemma DayWithinYear_range t : 0 <= Date.DayWithinYear t <= 365.
Proof.
  unfold Date.DayWithinYear, Date.YearFromTime.
  pose proof (YearFromDay_spec (Date.Day t)).
  pose proof (DayFromYear_step (Date.YearFromDay (Date.Day t))). lia.
Qed.

(** Month and date are in range, and [MakeDay] maps them back to the
    day. *)
Lemma date_parts t :
  0 <= Date.MonthFromTime t <= 11
  /\ 1 <= Date.DateFromTime t <= 32
  /\ Date.DayFromYear (Date.YearFromTime t)
     + Date.month_start (Date.InLeapYear (Date.YearFromTime t))
                        (Date.MonthFromTime t)
     + Date.DateFromTime t - 1 = Date.Day t.
Proof.
  pose proof (DayWithinYear_range t) as Hd.
  unfold Date.DateFromTime, Date.MonthFromTime.
  set (dwy := Date.DayWithinYear t) in *.
  assert (Hday : Date.DayFromYear (Date.YearFromTime t) + dwy = Date.Day t)
    by (subst dwy; unfold Date.DayWithinYear; lia).
  clearbody dwy.
  destruct (Date.InLeapYear (Date.YearFromTime t));
    cbv [Date.month_start];
    repeat match goal with
           | |- context [if ?a <? ?b then _ else _] =>
               destruct (Z.ltb_spec a b)
           end;
    lia.
Qed.

Lemma digit_char_code d :
  N_of_ascii (Str.digit_char d) = Z.to_N (48 + d mod 10).
Proof.
  unfold Str.digit_char. apply N_ascii_embedding.
  pose proof (Z.mod_pos_bound d 10). lia.
Qed.

Lemma digit_char_is_digit d : Str.is_digit (Str.digit_char d) = true.
Proof.
  unfold Str.is_digit. rewrite digit_char_code.
  pose proof (Z.mod_pos_bound d 10).
  apply andb_true_intro. split; apply N.leb_le; lia.
Qed.

Lemma digit_char_value d : Str.digit_value (Str.digit_char d) = d mod 10.
Proof.
  unfold Str.digit_value. rewrite digit_char_code.
  pose proof (Z.mod_pos_bound d 10). lia.
Qed.

Lemma digits_value_snoc s : forall acc c,
  Str.digits_value acc (s ++ String c EmptyString)%string
  = match Str.digits_value acc s with
    | Some v =>
        if Str.is_digit c then Some (10 * v + Str.digit_value c) else None
    | None => None
    end.
Proof.
  induction s as [|x s IH]; intros acc c; simpl; [reflexivity|].
  destruct (Str.is_digit x); [apply IH|reflexivity].
Qed.

Lemma digits_value_pad width : forall n acc,
  Str.digits_value acc (Str.pad width n)
  = Some (acc * 10 ^ Z.of_nat width + n mod 10 ^ Z.of_nat width).
Proof.
  induction width as [|width IH]; intros n acc.
  - cbn. rewrite Z.mod_1_r. f_equal. lia.
  - cbn [Str.pad]. rewrite digits_value_snoc, IH.
    rewrite digit_char_is_digit, digit_char_value. f_equal.
    rewrite Nat2Z.inj_succ, Z.pow_succ_r by lia.
    assert (0 < 10 ^ Z.of_nat width) by (apply Z.pow_pos_nonneg; lia).
    rewrite (Z.rem_mul_r n 10 (10 ^ Z.of_nat width)) by lia. lia.
Qed.

Lemma pad_head width : forall n,
  exists c s, Str.pad (S width) n = String c s /\ Str.is_digit c = true.
Proof.
  induction width as [|width IH]; intros n.
  - exists (Str.digit_char n), EmptyString.
    split; [reflexivity|apply digit_char_is_digit].
  - destruct (IH (n / 10)) as (c & s & Heq & Hc).
    exists c, (s ++ String (Str.digit_char n) EmptyString)%string.
    split; [|exact Hc].
    change (Str.pad (S (S width)) n)
      with (Str.pad (S width) (n / 10)
              ++ String (Str.digit_char n) EmptyString)%string.
    now rewrite Heq.
Qed.

Lemma Number_digit_first c s :
  Str.is_digit c = true ->
  Str.Number (String c s) = Str.unsigned_literal (String c s).
Proof.
  destruct c as [[] [] [] [] [] [] [] []]; try reflexivity; discriminate.
Qed.

(** [Number] reads a zero-padded number back. *)
Lemma Number_pad width n :
  0 <= n < 10 ^ Z.of_nat (S width) ->
  Str.Number (Str.pad (S width) n) = Num n.
Proof.
  intros Hn. destruct (pad_head width n) as (c & s & Heq & Hc).
  rewrite Heq, (Number_digit_first c s Hc). unfold Str.unsigned_literal.
  rewrite <- Heq, digits_value_pad. f_equal.
  rewrite Z.mod_small by exact Hn. lia.
Qed.

Lemma is_digit_not_dash c :
  Str.is_digit c = true -> Ascii.eqb c "-"%char = false.
Proof.
  intros H. destruct (Ascii.eqb_spec c "-"%char); [subst; discriminate|].
  reflexivity.
Qed.

Lemma split_digits s : forall acc v,
  Str.digits_value acc s = Some v -> Str.split "-"%char s = [s].
Proof.
  induction s as [|c s IH]; intros acc v H; [reflexivity|].
  cbn [Str.digits_value] in H. cbn [Str.split].
  destruct (Str.is_digit c) eqn:Hc; [|discriminate].
  rewrite (is_digit_not_dash c Hc), (IH _ _ H). reflexivity.
Qed.

Lemma split_digits_dash s r : forall acc v,
  Str.digits_value acc s = Some v ->
  Str.split "-"%char (s ++ "-" ++ r)%string = s :: Str.split "-"%char r.
Proof.
  induction s as [|c s IH]; intros acc v H; [reflexivity|].
  cbn [Str.digits_value] in H.
  change ((String c s ++ "-" ++ r)%string)
    with (String c (s ++ "-" ++ r)%string).
  cbn [Str.split].
  destruct (Str.is_digit c) eqn:Hc; [|discriminate].
  rewrite (is_digit_not_dash c Hc), (IH _ _ H). reflexivity.
Qed.

Lemma slice0_all n : forall s,
  (String.length s <= n)%nat -> Str.slice0 n s = s.
Proof.
  unfold Str.slice0.
  induction n as [|n IH]; intros [|c s] Hs; simpl in *;
    try reflexivity; try lia.
  rewrite IH by lia. reflexivity.
Qed.

(** [toUtc] of year-month-day text. *)
Lemma toUtc_text y m d :
  100 <= y <= 9999 -> 0 <= m <= 11 -> 0 <= d <= 99 ->
  toUtc (Str.pad 4 y ++ "-" ++ Str.pad 2 (m + 1) ++ "-" ++ Str.pad 2 d)%string
  = Date.UTC (Num y) (Num m) (Num d).
Proof.
  intros Hy Hm Hd. unfold toUtc.
  rewrite (split_digits_dash _ _ 0 _ (digits_value_pad 4 y 0)).
  rewrite (split_digits_dash _ _ 0 _ (digits_value_pad 2 (m + 1) 0)).
  rewrite (split_digits _ 0 _ (digits_value_pad 2 d 0)).
  cbn [map nth nth_error JS.nullish].
  rewrite !Number_pad by (cbn; lia).
  cbn [JS.sub]. do 2 f_equal. lia.
Qed.

Lemma dateKeyOf_text t :
  inKeyRange t = true ->
  dateKeyOf t
  = (Str.pad 4 (Date.YearFromTime t) ++ "-"
       ++ Str.pad 2 (Date.MonthFromTime t + 1)
       ++ "-" ++ Str.pad 2 (Date.DateFromTime t))%string.
Proof.
  intros H. pose proof (YearFromTime_range t H) as Hy.
  rewrite dateKeyOf_date_text. unfold date_text, Date.iso_year.
  replace ((0 <=? Date.YearFromTime t) && (Date.YearFromTime t <=? 9999))
    with true
    by (symmetry; apply andb_true_intro; split; apply Z.leb_le; lia).
  apply slice0_all.
  rewrite !string_length_app, !pad_length. cbn [String.length]. lia.
Qed.

(** The UTC midnight the function computes for the key of a time value is
    the midnight of its UTC day. *)
Lemma toUtc_dateKeyOf t :
  inKeyRange t = true -> toUtc (dateKeyOf t) = Num (Date.Day t * DAY_MS).
Proof.
  intros H. pose proof (YearFromTime_range t H) as Hy.
  destruct (date_parts t) as (Hm & Hd & Hday).
  pose proof (inKeyRange_Day t H) as Hrange.
  rewrite (dateKeyOf_text t H), toUtc_text by lia.
  unfold Date.UTC, Date.MakeFullYear, Date.MakeDay.
  replace ((0 <=? Date.YearFromTime t) && (Date.YearFromTime t <=? 99))
    with false
    by (symmetry; apply andb_false_iff; right; apply Z.leb_gt; lia).
  rewrite (Z.div_small (Date.MonthFromTime t) 12) by lia.
  rewrite (Z.mod_small (Date.MonthFromTime t) 12) by lia.
  rewrite Z.add_0_r, Hday. unfold Date.TimeClip.
  replace (Z.abs (Date.Day t * Date.msPerDay) <=? 8640000000000000)
    with true; [reflexivity|].
  symmetry. apply Z.leb_le. unfold Date.msPerDay. lia.
Qed.

Lemma gap_dateKeyOf t1 t2 :
  inKeyRange t1 = true -> inKeyRange t2 = true ->
  gap (dateKeyOf t1) (dateKeyOf t2) = Num (Date.Day t1 - Date.Day t2).
Proof.
  intros H1 H2. unfold gap.
  rewrite (toUtc_dateKeyOf t1 H1), (toUtc_dateKeyOf t2 H2).
  apply dayDiff_days.
Qed.

Lemma newer_dateKeyOf t1 t2 :
  inKeyRange t1 = true -> inKeyRange t2 = true ->
  newer (dateKeyOf t1) (dateKeyOf t2) = (Date.Day t2 <? Date.Day t1).
Proof.
  intros H1 H2. unfold newer.
  rewrite (toUtc_dateKeyOf t1 H1), (toUtc_dateKeyOf t2 H2).
  change DAY_MS with 86400000.
  destruct (Z.ltb_spec (Date.Day t2) (Date.Day t1));
    [apply Z.ltb_lt | apply Z.ltb_ge]; lia.
Qed.

(** Two time values have the same date key only on the same UTC day. *)
Lemma dateKeyOf_inj t1 t2 :
  inKeyRange t1 = true -> inKeyRange t2 = true ->
  dateKeyOf t1 = dateKeyOf t2 -> Date.Day t1 = Date.Day t2.
Proof.
  intros H1 H2 Heq.
  pose proof (toUtc_dateKeyOf t1 H1) as E1. rewrite Heq in E1.
  rewrite (toUtc_dateKeyOf t2 H2) in E1. injection E1 as E1.
  change DAY_MS with 86400000 in E1. lia.
Qed.

(** ** Keys of calendar days

    For the days from 0100-01-01 to 9999-12-31 the function's day
    arithmetic on the keys is the arithmetic of the day numbers. *)

Lemma Day_of_day d : Date.Day (d * Date.msPerDay) = d.
Proof. unfold Date.Day. apply Z.div_mul. discriminate. Qed.

Lemma inKeyRange_day d : inKeyRange (d * Date.msPerDay) = dayInRange d.
Proof.
  unfold inKeyRange, dayInRange, Date.msPerDay.
  destruct (Z.leb_spec (-683003) d), (Z.ltb_spec d 2932897);
    cbn [andb]; symmetry;
    rewrite ?andb_true_iff, ?andb_false_iff, ?Z.leb_le, ?Z.ltb_lt,
      ?Z.leb_gt, ?Z.ltb_ge; lia.
Qed.

Lemma gap_dayKey a b :
  dayInRange a = true -> dayInRange b = true ->
  gap (dayKey a) (dayKey b) = Num (a - b).
Proof.
  intros Ha Hb. unfold dayKey.
  rewrite gap_dateKeyOf by now rewrite inKeyRange_day.
  now rewrite !Day_of_day.
Qed.

Lemma dayKey_of_time t : dateKeyOf t = dayKey (Date.Day t).
Proof. unfold dayKey. apply dateKeyOf_day. now rewrite Day_of_day. Qed.

Lemma dayInRange_Day t : inKeyRange t = true -> dayInRange (Date.Day t) = true.
Proof.
  intros H. apply inKeyRange_Day in H. unfold dayInRange.
  apply andb_true_intro. split; [apply Z.leb_le | apply Z.ltb_lt]; lia.
Qed.

Lemma contig_dayKey a b :
  dayInRange a = true -> dayInRange b = true ->
  contig (dayKey a) (dayKey b) = (a - b =? 1).
Proof. intros Ha Hb. unfold contig. now rewrite gap_dayKey. Qed.

Lemma sameDay_dayKey a b :
  dayInRange a = true -> dayInRange b = true ->
  sameDay (dayKey a) (dayKey b) = (a - b =? 0).
Proof. intros Ha Hb. unfold sameDay. now rewrite gap_dayKey. Qed.

Lemma forallb_tail {A} (f : A -> bool) a l :
  forallb f (a :: l) = true -> f a = true /\ forallb f l = true.
Proof. cbn [forallb]. apply andb_prop. Qed.

Lemma prefixRun_dayKey days :
  forallb dayInRange days = true ->
  prefixRun (map dayKey days) = leadingRun days.
Proof.
  induction days as [|a [|b days] IH]; intros Hr; try reflexivity.
  apply forallb_tail in Hr as [Ha Hr].
  pose proof (forallb_tail _ _ _ Hr) as [Hb _].
  change (map dayKey (a :: b :: days))
    with (dayKey a :: dayKey b :: map dayKey days).
  rewrite prefixRun_cons, contig_dayKey by assumption.
  change (dayKey b :: map dayKey days) with (map dayKey (b :: days)).
  rewrite (IH Hr). reflexivity.
Qed.

Lemma maxRun_dayKey days :
  forallb dayInRange days = true ->
  maxRun (map dayKey days) = longestRun days.
Proof.
  induction days as [|a days IH]; intros Hr; [reflexivity|].
  pose proof (forallb_tail _ _ _ Hr) as [_ Htl].
  change (map dayKey (a :: days)) with (dayKey a :: map dayKey days).
  rewrite maxRun_cons.
  change (dayKey a :: map dayKey days) with (map dayKey (a :: days)).
  rewrite (prefixRun_dayKey _ Hr), (IH Htl). reflexivity.
Qed.

Lemma distinctDays_dayKey days :
  forallb dayInRange days = true ->
  descendingDays days = true ->
  distinctDays (map dayKey days) = true.
Proof.
  unfold descendingDays, distinctDays.
  induction days as [|a [|b days] IH]; intros Hr Hd; try reflexivity.
  apply forallb_tail in Hr as [Ha Hr].
  pose proof (forallb_tail _ _ _ Hr) as [Hb _].
  rewrite adjacent_cons in Hd. apply andb_prop in Hd as [Hab Hd].
  change (map dayKey (a :: b :: days))
    with (dayKey a :: dayKey b :: map dayKey days).
  rewrite adjacent_cons, sameDay_dayKey by assumption.
  change (dayKey b :: map dayKey days) with (map dayKey (b :: days)).
  rewrite (IH Hr Hd), andb_true_r. apply negb_true_iff, Z.eqb_neq.
  apply Z.ltb_lt in Hab. lia.
Qed.

Lemma leadingRun_cons a b tl :
  leadingRun (a :: b :: tl)
  = if a - b =? 1 then 1 + leadingRun (b :: tl) else 1.
Proof. reflexivity. Qed.

Lemma leadingRun_pos a tl : 1 <= leadingRun (a :: tl).
Proof.
  revert a. induction tl as [|b tl IH]; intros a; [simpl; lia|].
  rewrite leadingRun_cons. destruct (a - b =? 1); [|lia].
  specialize (IH b). lia.
Qed.

Lemma longestRun_cons a tl :
  longestRun (a :: tl) = Z.max (leadingRun (a :: tl)) (longestRun tl).
Proof. reflexivity. Qed.

(** The run a list of days starts with, as a segment. *)
Lemma leadingRun_split tl : forall a,
  exists run tail,
    a :: tl = run ++ tail /\ run <> [] /\ consecutiveDays run = true
    /\ Z.of_nat (List.length run) = leadingRun (a :: tl)
    /\ match tail with
       | [] => True
       | b :: _ => last run a - b <> 1
       end.
Proof.
  induction tl as [|b tl IH]; intros a.
  - exists [a], []. repeat split. discriminate.
  - rewrite leadingRun_cons. destruct (Z.eqb_spec (a - b) 1) as [Hab|Hab].
    + destruct (IH b) as (run & tail & Heq & Hne & Hc & Hlen & Hbreak).
      destruct run as [|b' run]; [contradiction|].
      injection Heq as <- Heq.
      exists (a :: b :: run), tail. repeat split.
      * simpl. now rewrite Heq.
      * discriminate.
      * unfold consecutiveDays in *. rewrite adjacent_cons.
        apply andb_true_intro. split; [now apply Z.eqb_eq | exact Hc].
      * rewrite <- Hlen. cbn [List.length]. lia.
      * change (last (a :: b :: run) a) with (last (b :: run) a).
        rewrite (last_default _ a b) by discriminate. exact Hbreak.
    + exists [a], (b :: tl). repeat split; [discriminate | exact Hab].
Qed.

Lemma consecutive_prefix_le run : forall tail,
  consecutiveDays run = true ->
  Z.of_nat (List.length run) <= leadingRun (run ++ tail).
Proof.
  induction run as [|a [|b run] IH]; intros tail Hc.
  - destruct tail as [|x tail]; [cbn; lia|].
    pose proof (leadingRun_pos x tail). cbn [app List.length Z.of_nat]. lia.
  - apply leadingRun_pos.
  - unfold consecutiveDays in Hc. rewrite adjacent_cons in Hc.
    apply andb_prop in Hc as [Hab Hc].
    change ((a :: b :: run) ++ tail) with (a :: b :: (run ++ tail)).
    rewrite leadingRun_cons, Hab.
    specialize (IH tail Hc). cbn [List.length] in *.
    change ((b :: run) ++ tail) with (b :: (run ++ tail)) in IH. lia.
Qed.

Lemma leadingRun_le_longestRun days : leadingRun days <= longestRun days.
Proof. destruct days; [simpl; lia|]. rewrite longestRun_cons. lia. Qed.

Lemma longestRun_upper before : forall run after,
  consecutiveDays run = true ->
  Z.of_nat (List.length run) <= longestRun (before ++ run ++ after).
Proof.
  induction before as [|x before IH]; intros run after Hc.
  - etransitivity; [apply (consecutive_prefix_le run after Hc)|].
    apply leadingRun_le_longestRun.
  - change ((x :: before) ++ run ++ after)
      with (x :: (before ++ run ++ after)).
    rewrite longestRun_cons. specialize (IH run after Hc). lia.
Qed.

Lemma longestRun_attained days :
  exists before run after,
    days = before ++ run ++ after /\ consecutiveDays run = true
    /\ Z.of_nat (List.length run) = longestRun days.
Proof.
  induction days as [|a tl IH].
  - exists [], [], []. repeat split.
  - rewrite longestRun_cons.
    destruct (Z_le_gt_dec (longestRun tl) (leadingRun (a :: tl))) as [Hle|Hgt].
    + destruct (leadingRun_split tl a) as (run & tail & Heq & _ & Hc & Hlen & _).
      exists [], run, tail. repeat split; [exact Heq | exact Hc | lia].
    + destruct IH as (before & run & after & Heq & Hc & Hlen).
      exists (a :: before), run, after. repeat split.
      * simpl. now rewrite Heq.
      * exact Hc.
      * lia.
Qed.

(** In a descending list the day after the leading run is more than one
    day before the run's last day. *)
Lemma descending_last_step (run : list Z) : forall a b tail,
  run <> [] ->
  descendingDays (run ++ b :: tail) = true -> b < last run a.
Proof.
  unfold descendingDays.
  induction run as [|x [|y run] IH]; intros a b tail Hne Hd;
    [contradiction| |].
  - cbn in Hd. apply andb_prop in Hd as [Hd _]. now apply Z.ltb_lt in Hd.
  - change (last (x :: y :: run) a) with (last (y :: run) a).
    apply (IH a b tail); [discriminate|].
    exact (adjacent_tail _ _ _ Hd).
Qed.

(** The current streak of the keys of a descending list of days. *)
Lemma currentStreakAt_dayKey t first rest :
  forallb dayInRange (first :: rest) = true ->
  descendingDays (first :: rest) = true ->
  inKeyRange t = true ->
  currentStreakAt t (map dayKey (first :: rest))
  = if 1 <? Date.Day t - first then 0 else leadingRun (first :: rest).
Proof.
  intros Hr Hd Ht. pose proof (forallb_tail _ _ _ Hr) as [Hf _].
  unfold currentStreakAt. cbn [map].
  fold (gap (dateKeyOf t) (dayKey first)).
  rewrite (dayKey_of_time t), gap_dayKey
    by (try apply dayInRange_Day; assumption).
  cbn [JS.gt]. destruct (1 <? Date.Day t - first); [reflexivity|].
  change (dayKey first :: map dayKey rest) with (map dayKey (first :: rest)).
  rewrite (currentLoop_prefixRun (map dayKey rest) (dayKey first) 1).
  - change (dayKey first :: map dayKey rest) with (map dayKey (first :: rest)).
    rewrite prefixRun_dayKey by exact Hr. lia.
  - change (dayKey first :: map dayKey rest) with (map dayKey (first :: rest)).
    now apply distinctDays_dayKey.
Qed.

Lemma computeLongestStreak_dayKey days :
  forallb dayInRange days = true ->
  descendingDays days = true ->
  computeLongestStreak (map dayKey days) = longestRun days.
Proof.
  intros Hr Hd.
  rewrite computeLongestStreak_maxRun by now apply distinctDays_dayKey.
  now apply maxRun_dayKey.
Qed.

(** ** Steps by the value of the gap *)

Lemma eqq_true a n : JS.eqq a n = true <-> a = Num n.
Proof.
  destruct a as [x|]; cbn [JS.eqq].
  - rewrite Z.eqb_eq. split; [now intros ->|now intros [= ->]].
  - split; discriminate.
Qed.

Lemma eqq_false a n : JS.eqq a n = false <-> a <> Num n.
Proof.
  rewrite <- eqq_true. destruct (JS.eqq a n); split; congruence.
Qed.

Lemma noZeroStep_distinctDays keys :
  noZeroStep keys -> distinctDays keys = true.
Proof.
  unfold distinctDays.
  induction keys as [|a [|b keys] IH]; intros H; try reflexivity.
  destruct H as [Hab H]. rewrite adjacent_cons, (IH H), andb_true_r.
  apply negb_true_iff. unfold sameDay. now apply eqq_false.
Qed.

Lemma contiguous_stepsOfOne keys :
  contiguous keys = true -> stepsOfOne keys.
Proof.
  unfold contiguous.
  induction keys as [|a [|b keys] IH]; intros H; try exact I.
  rewrite adjacent_cons in H. apply andb_prop in H as [Hab H].
  split; [now apply eqq_true|now apply IH].
Qed.

(** C5: with [g] the whole-day gap from today back to the newest key, the
    current streak is 0 when [g > 1]; when [g] is 0 or 1 the newest key
    counts, and on a sequence without a gap of zero the streak is the
    length of the run the sequence starts with, in which every step is a
    gap of exactly one: the first step whose gap is anything else ends
    it.  The gap is the one the function computes; between the keys of
    two days from 0100-01-01 to 9999-12-31 it is the number of days from
    the one to the other. *)
Theorem C5_start_gap_and_strict_steps
    (w : World) (first : DateKey) (rest : list DateKey) (g : Z) :
  noZeroStep (first :: rest) ->
  gap (dateKeyOf (now w)) first = Num g ->
  (1 < g -> computeCurrentStreak (first :: rest) w = (Ok 0, tick w))
  /\ (g = 0 \/ g = 1 ->
      exists streak run tail,
        computeCurrentStreak (first :: rest) w = (Ok streak, tick w)
        /\ 1 <= streak
        /\ (rest = [] -> streak = 1)
        /\ first :: rest = run ++ tail
        /\ stepsOfOne run
        /\ streak = Z.of_nat (List.length run)
        /\ match tail with
           | [] => True
           | next :: _ => gap (last run first) next <> Num 1
           end)
  /\ (forall a b : Z,
        dayInRange a = true -> dayInRange b = true ->
        gap (dayKey a) (dayKey b) = Num (a - b)).
Proof.
  intros Hd Hgap. apply noZeroStep_distinctDays in Hd.
  rewrite computeCurrentStreak_run. unfold currentStreakAt.
  fold (gap (dateKeyOf (now w)) first). rewrite Hgap.
  split; [|split; [|exact gap_dayKey]].
  - intros Hg. replace (JS.gt (Num g) 1) with true; [reflexivity|].
    symmetry. now apply Z.ltb_lt.
  - intros Hg. replace (JS.gt (Num g) 1) with false
      by (symmetry; apply Z.ltb_ge; lia).
    destruct (prefixRun_split rest first)
      as (run & tail & Heq & Hne & Hc & Hlen & Hbreak).
    rewrite (currentLoop_prefixRun rest first 1 Hd).
    exists (prefixRun (first :: rest)), run, tail.
    pose proof (prefixRun_pos first rest).
    split; [f_equal; f_equal; lia|]. split; [lia|].
    split; [intros ->; reflexivity|]. split; [exact Heq|].
    split; [now apply contiguous_stepsOfOne|]. split; [lia|].
    destruct tail as [|next tail]; [exact I|].
    now apply eqq_false.
Qed.

(** ** The date keys of a query result are sorted newest first *)

Lemma newestFirst_snoc acc : forall k,
  newestFirst acc = true ->
  (forall z, lastKey acc = Some z -> newer z k = true) ->
  newestFirst (acc ++ [k]) = true.
Proof.
  unfold newestFirst.
  induction acc as [|a [|b acc] IH]; intros k Hs Hlast.
  - reflexivity.
  - cbn. rewrite (Hlast a eq_refl). reflexivity.
  - change ((a :: b :: acc) ++ [k]) with (a :: b :: (acc ++ [k])).
    rewrite adjacent_cons in *. apply andb_prop in Hs as [Hab Hs].
    rewrite Hab. apply (IH k Hs). intros z Hz. apply Hlast. exact Hz.
Qed.

Lemma pushKeys_newestFirst (T : list Timestamp) : forall acc z,
  newestFirst acc = true ->
  lastKey acc = Some (keyOfTimestamp z) ->
  inKeyRange (millis z) = true ->
  adjacent (fun a b => ts_leb b a) (z :: T) = true ->
  forallb (fun ts => inKeyRange (millis ts)) T = true ->
  newestFirst (pushKeys acc (map keyOfTimestamp T)) = true.
Proof.
  induction T as [|x T IH]; intros acc z Hs Hlast Hz Hdesc Hrange.
  - exact Hs.
  - cbn [forallb] in Hrange. apply andb_prop in Hrange as [Hx Hrange].
    rewrite adjacent_cons in Hdesc. apply andb_prop in Hdesc as [Hxz Hdesc].
    cbn [map]. unfold pushKeys. cbn [fold_left]. fold pushKeys.
    apply (IH _ x); try assumption; [|apply lastKey_pushKey].
    unfold pushKey, lastDiffers. rewrite Hlast.
    destruct (String.eqb_spec (keyOfTimestamp z) (keyOfTimestamp x))
      as [Heq|Hne]; [exact Hs|].
    cbn [negb]. apply newestFirst_snoc; [exact Hs|].
    intros k Hk. rewrite Hlast in Hk. injection Hk as <-.
    unfold keyOfTimestamp in *. rewrite newer_dateKeyOf by assumption.
    apply Z.ltb_lt. apply ts_leb_millis, Day_mono in Hxz.
    assert (Date.Day (millis x) <> Date.Day (millis z)); [|lia].
    intros Hday. apply Hne. symmetry. now apply dateKeyOf_day.
Qed.

(** On a query result in descending order, with years from 100 to 9999,
    the [dateKeys] array is sorted newest first with no day twice. *)
Theorem dateKeysOf_newestFirst (docs : list EntryDoc) :
  descendingEntries docs = true ->
  keyRangeEntries docs = true ->
  newestFirst (dateKeysOf docs) = true.
Proof.
  unfold descendingEntries, keyRangeEntries, dateKeysOf.
  destruct (timestampsOf docs) as [|x T]; [reflexivity|].
  intros Hdesc Hrange. cbn [forallb] in Hrange.
  apply andb_prop in Hrange as [Hx Hrange].
  cbn [map]. unfold pushKeys. cbn [fold_left]. fold pushKeys.
  apply (pushKeys_newestFirst T _ x); try assumption; reflexivity.
Qed.

(** Below the year 100 [Date.UTC] adds 1900 to the year: the key of
    31 December 99 is read as 31 December 1999. *)
Example toUtc_two_digit_year :
  toUtc "0099-12-31" = Num 946598400000
  /\ toUtc "1999-12-31" = Num 946598400000.
Proof. split; vm_compute; reflexivity. Qed.


(** C4 fails below the year 100.  The keys of 1 January 100 and
    31 December 99 are two consecutive days, yet the longest-streak
    candidate is 1, also when the handler derives the keys from two
    entries on those days; the keys of 1 January 2000 and 31 December 99
    are 693961 days apart, yet the candidate is 2: [toUtc] reads the key
    of 31 December 99 as 31 December 1999. *)
Theorem C4_longest_candidate_across_year_100 :
  map dayKey [-683003; -683004] = ["0100-01-01"; "0099-12-31"]
  /\ descendingDays [-683003; -683004] = true
  /\ longestRun [-683003; -683004] = 2
  /\ computeLongestStreak ["0100-01-01"; "0099-12-31"] = 1
  /\ descendingEntries [jan1_0100; dec31_0099] = true
  /\ dateKeysOf [jan1_0100; dec31_0099] = ["0100-01-01"; "0099-12-31"]
  /\ (exists written w',
        processHabit new_habit [jan1_0100; dec31_0099] on_march1
        = (Ok written, w')
        /\ longestStreak written = Some 1)
  /\ map dayKey [10957; -683004] = ["2000-01-01"; "0099-12-31"]
  /\ longestRun [10957; -683004] = 1
  /\ computeLongestStreak ["2000-01-01"; "0099-12-31"] = 2
  /\ toUtc "0099-12-31" = toUtc "1999-12-31".
Proof.
  repeat split; try (vm_compute; reflexivity).
  do 2 eexists. split; vm_compute; reflexivity.
Qed.

(** ** The sample habit *)

Example sample_dateKeys : dateKeysOf sample_docs = sample_keys.
Proof. vm_compute. reflexivity. Qed.

Example sample_run_today :
  fst (processHabit sample_habit sample_docs on_march1)
  = Ok {| currentStreak := Some 2; longestStreak := Some 3;
          lastEntryAt := performedAt march1_0900;
          updatedAt := Some 1709301200000 |}.
Proof. vm_compute. reflexivity. Qed.

Example sample_run_two_days_later :
  fst (processHabit sample_habit sample_docs on_march3)
  = Ok {| currentStreak := Some 0; longestStreak := Some 3;
          lastEntryAt := performedAt march1_0900;
          updatedAt := Some 1709474000000 |}.
Proof. vm_compute. reflexivity. Qed.

(** C6, as stated, fails: [computeCurrentStreak] has no parameter for
    today and reads the clock, so the same keys give 1 on 1 March and 0 on
    3 March. *)
Lemma C6_same_keys_different_streaks :
  computeCurrentStreak ["2024-03-01"] on_march1 = (Ok 1, tick on_march1)
  /\ computeCurrentStreak ["2024-03-01"] on_march3 = (Ok 0, tick on_march3)
  /\ fst (computeCurrentStreak ["2024-03-01"] on_march1)
     <> fst (computeCurrentStreak ["2024-03-01"] on_march3).
Proof.
  split; [vm_compute; reflexivity|].
  split; [vm_compute; reflexivity|].
  vm_compute. discriminate.
Qed.

(** C7, as stated, fails: on an empty query result the run writes null
    into [lastEntryAt], a field that was absent before; and the value of
    the first document is copied unchecked, so a first document whose
    [performedAt] is a string puts that string into [lastEntryAt] though
    an entry with a timestamp follows. *)
Lemma C7_null_when_empty_and_first_document_unchecked :
  (exists written w',
     processHabit new_habit [] on_march1 = (Ok written, w')
     /\ lastEntryAt new_habit = VUndefined
     /\ lastEntryAt written = VNull
     /\ lastEntryAt written <> VUndefined)
  /\ (exists written w',
        processHabit new_habit [dated_by_text; march1_0900] on_march1
        = (Ok written, w')
        /\ timestampsOf [dated_by_text; march1_0900]
           = [mkTimestamp 1709283600 0 eq_refl]
        /\ lastEntryAt written = VOther "2024-03-02"
        /\ lastEntryAt written <> performedAt march1_0900).
Proof.
  split; do 2 eexists.
  - split; [vm_compute; reflexivity|]. cbn. repeat split. discriminate.
  - split; [vm_compute; reflexivity|]. cbn. repeat split. discriminate.
Qed.

(** C9, as stated, fails: an entry at 23:59:59.9995 UTC on 29 February
    is on the same UTC calendar day as the entry at 20:00 that day, but
    [toDate()] rounds it to midnight, so its key is 2024-03-01: with it
    both streaks are 2, without it 1. *)
Lemma C9_last_half_millisecond_counts_as_next_day :
  descendingEntries [feb29_last_instant; feb29_2000] = true
  /\ sameCalendarDay (mkTimestamp 1709251199 999500000 eq_refl)
                     (mkTimestamp 1709236800 0 eq_refl)
  /\ dateKeysOf [feb29_2000] = ["2024-02-29"]
  /\ dateKeysOf [feb29_last_instant; feb29_2000]
     = ["2024-03-01"; "2024-02-29"]
  /\ computeCurrentStreak (dateKeysOf [feb29_2000]) on_march1
     = (Ok 1, tick on_march1)
  /\ computeCurrentStreak (dateKeysOf [feb29_last_instant; feb29_2000])
       on_march1
     = (Ok 2, tick on_march1)
  /\ computeLongestStreak (dateKeysOf [feb29_2000]) = 1
  /\ computeLongestStreak (dateKeysOf [feb29_last_instant; feb29_2000]) = 2.
Proof. repeat split; vm_compute; reflexivity. Qed.

(** A stored longest streak of 10 against a candidate of 3, and a
    stored 1 against the same candidate. *)
Lemma C2_witness :
  longestStreak veteran_habit = Some 10
  /\ computeLongestStreak (dateKeysOf sample_docs) = 3
  /\ (exists written w' persisted,
        processHabit veteran_habit sample_docs on_march1 = (Ok written, w')
        /\ longestStreak written = Some persisted
        /\ persisted = Z.max 10 (computeLongestStreak (dateKeysOf sample_docs))
        /\ 10 <= persisted)
  /\ (forall runs : list (list EntryDoc),
        exists final w' latest,
          recalculate veteran_habit runs on_march1 = (Ok final, w')
          /\ longestStreak final = Some latest
          /\ 10 <= latest)
  /\ (exists written w',
        processHabit sample_habit sample_docs on_march1 = (Ok written, w')
        /\ longestStreak sample_habit = Some 1
        /\ longestStreak written = Some 3)
  /\ fst (processHabit veteran_habit sample_docs on_march1)
     = Ok {| currentStreak := Some 2; longestStreak := Some 10;
             lastEntryAt := performedAt march1_0900;
             updatedAt := Some 1709301200000 |}.
Proof.
  split; [reflexivity|].
  split; [vm_compute; reflexivity|].
  destruct (C2_longest_is_max_of_previous_and_candidate
              veteran_habit sample_docs on_march1 10 eq_refl) as [H1 H2].
  split; [exact H1|]. split; [exact H2|].
  destruct (C2_longest_is_max_of_previous_and_candidate
              sample_habit sample_docs on_march1 1 eq_refl)
    as [(written & w' & persisted & Hrun & Hl & Hmax & _) _].
  split; [|vm_compute; reflexivity].
  exists written, w'. split; [exact Hrun|]. split; [reflexivity|].
  rewrite Hl, Hmax. vm_compute. reflexivity.
Defined.

(** The sample keys under a clock on 2 March, one day after the newest
    key: the streak is 2; under the clocks on 1 and 3 March it is 2 and
    0. *)
Lemma C5_witness :
  noZeroStep sample_keys
  /\ gap (dateKeyOf (now on_march2)) "2024-03-01" = Num 1
  /\ sample_keys = map dayKey [19783; 19782; 19778; 19777; 19776]
  /\ computeCurrentStreak sample_keys on_march2 = (Ok 2, tick on_march2)
  /\ computeCurrentStreak sample_keys on_march1 = (Ok 2, tick on_march1)
  /\ computeCurrentStreak sample_keys on_march3 = (Ok 0, tick on_march3)
  /\ (1 < 1 -> computeCurrentStreak sample_keys on_march2
               = (Ok 0, tick on_march2))
  /\ (1 = 0 \/ 1 = 1 ->
      exists streak run tail,
        computeCurrentStreak sample_keys on_march2 = (Ok streak, tick on_march2)
        /\ 1 <= streak
        /\ (tl sample_keys = [] -> streak = 1)
        /\ sample_keys = run ++ tail
        /\ stepsOfOne run
        /\ streak = Z.of_nat (List.length run)
        /\ match tail with
           | [] => True
           | next :: _ => gap (last run "2024-03-01") next <> Num 1
           end)
  /\ (forall a b : Z,
        dayInRange a = true -> dayInRange b = true ->
        gap (dayKey a) (dayKey b) = Num (a - b)).
Proof.
  assert (Hd : noZeroStep sample_keys)
    by (repeat split; vm_compute; discriminate).
  split; [exact Hd|].
  split; [vm_compute; reflexivity|].
  split; [vm_compute; reflexivity|].
  split; [vm_compute; reflexivity|].
  split; [vm_compute; reflexivity|].
  split; [vm_compute; reflexivity|].
  apply (C5_start_gap_and_strict_steps on_march2 "2024-03-01"
           (tl sample_keys) 1).
  - exact Hd.
  - vm_compute. reflexivity.
Defined.

Lemma C6_witness :
  dateKeyOf (now on_march1) = dateKeyOf (now (frozen 1709251200000))
  /\ exists written1 written2 w1' w2',
       processHabit sample_habit sample_docs on_march1 = (Ok written1, w1')
       /\ processHabit sample_habit sample_docs (frozen 1709251200000)
          = (Ok written2, w2')
       /\ currentStreak written1 = currentStreak written2
       /\ longestStreak written1 = longestStreak written2
       /\ lastEntryAt written1 = lastEntryAt written2.
Proof.
  split; [vm_compute; reflexivity|].
  apply C6_deterministic_given_clock_day. vm_compute. reflexivity.
Defined.

Lemma C7_witness :
  descendingEntries sample_docs = true
  /\ (exists written w',
        processHabit sample_habit [] on_march1 = (Ok written, w')
        /\ lastEntryAt written = VNull)
  /\ exists written w',
       processHabit sample_habit sample_docs on_march1 = (Ok written, w')
       /\ lastEntryAt written = VTimestamp (mkTimestamp 1709283600 0 eq_refl)
       /\ (forall ts, In ts (timestampsOf sample_docs) ->
             ts_leb ts (mkTimestamp 1709283600 0 eq_refl) = true).
Proof.
  split; [vm_compute; reflexivity|].
  destruct (C7_lastEntryAt_is_newest_instant sample_habit on_march1)
    as [Hempty Hfirst].
  split; [exact Hempty|].
  apply (Hfirst march1_0900 (tl sample_docs)
           (mkTimestamp 1709283600 0 eq_refl)).
  - reflexivity.
  - vm_compute. reflexivity.
Defined.

(** Two entries on 1 March at 09:00 and 05:00 against the one at 09:00. *)
Lemma C9_witness :
  descendingEntries ([march1_0900] ++ march1_0500 :: [feb29_2000]) = true
  /\ sameDateDay (mkTimestamp 1709283600 0 eq_refl)
                 (mkTimestamp 1709269200 0 eq_refl)
  /\ sameCalendarDay (mkTimestamp 1709283600 0 eq_refl)
                     (mkTimestamp 1709269200 0 eq_refl)
  /\ dateKeysOf ([march1_0900] ++ march1_0500 :: [feb29_2000])
     = ["2024-03-01"; "2024-02-29"]
  /\ dateKeysOf ([march1_0900] ++ march1_0500 :: [feb29_2000])
     = dateKeysOf ([march1_0900] ++ [feb29_2000])
  /\ computeCurrentStreak
       (dateKeysOf ([march1_0900] ++ march1_0500 :: [feb29_2000])) on_march1
     = (Ok 2, tick on_march1)
  /\ computeCurrentStreak
       (dateKeysOf ([march1_0900] ++ march1_0500 :: [feb29_2000])) on_march1
     = computeCurrentStreak (dateKeysOf ([march1_0900] ++ [feb29_2000]))
         on_march1
  /\ computeLongestStreak
       (dateKeysOf ([march1_0900] ++ march1_0500 :: [feb29_2000]))
     = 2
  /\ computeLongestStreak
       (dateKeysOf ([march1_0900] ++ march1_0500 :: [feb29_2000]))
     = computeLongestStreak (dateKeysOf ([march1_0900] ++ [feb29_2000]))
  /\ dateKeysOf [march1_0900; march1_0500] = dateKeysOf [march1_0900].
Proof.
  split; [vm_compute; reflexivity|].
  split; [vm_compute; reflexivity|].
  split; [vm_compute; reflexivity|].
  split; [vm_compute; reflexivity|].
  destruct (C9_same_day_entry_changes_nothing sample_habit
              [march1_0900] [feb29_2000] march1_0500
              (mkTimestamp 1709269200 0 eq_refl)
              (mkTimestamp 1709283600 0 eq_refl) on_march1)
    as (_ & Hkeys & Hcurrent & Hlongest & _).
  - reflexivity.
  - left. reflexivity.
  - vm_compute. reflexivity.
  - vm_compute. reflexivity.
  - split; [exact Hkeys|].
    split; [vm_compute; reflexivity|]. split; [exact Hcurrent|].
    split; [vm_compute; reflexivity|]. split; [exact Hlongest|].
    refine (proj1 (proj2 _)).
    apply (C9_same_day_entry_changes_nothing sample_habit
             [march1_0900] [] march1_0500
             (mkTimestamp 1709269200 0 eq_refl)
             (mkTimestamp 1709283600 0 eq_refl) on_march1).
    + reflexivity.
    + left. reflexivity.
    + vm_compute. reflexivity.
    + vm_compute. reflexivity.
Defined.

(** A newest key four days after today. *)
Lemma C10_witness :
  gap (dateKeyOf (now on_march1)) "2024-03-05" = Num (-4)
  /\ exists streak,
       computeCurrentStreak ("2024-03-05" :: sample_keys) on_march1
       = (Ok streak, tick on_march1)
       /\ 1 <= streak.
Proof.
  split; [vm_compute; reflexivity|].
  apply (C10_future_newest_key_counts on_march1 "2024-03-05" sample_keys (-4)).
  - vm_compute. reflexivity.
  - lia.
Defined.

(** * Further properties of the function *)

(** ** Date keys are calendar dates *)

Lemma DayFromYear_leap y :
  Date.DayFromYear (y + 1) - Date.DayFromYear y
  = if Date.InLeapYear y then 366 else 365.
Proof.
  unfold Date.DayFromYear, Date.InLeapYear.
  destruct (Z.eqb_spec (y mod 4) 0) as [E4|E4];
    destruct (Z.eqb_spec (y mod 100) 0) as [E100|E100];
    destruct (Z.eqb_spec (y mod 400) 0) as [E400|E400];
    cbv [andb orb negb]; Z.div_mod_to_equations; lia.
Qed.

Lemma fourDigitYear_range t :
  fourDigitYear t = true -> 0 <= Date.YearFromTime t <= 9999.
Proof.
  unfold fourDigitYear. intros H. apply andb_prop in H as [H1 H2].
  apply Z.leb_le in H1. apply Z.ltb_lt in H2.
  assert (Hd : -719528 <= Date.Day t < 2932897).
  { unfold Date.Day, Date.msPerDay. Z.div_mod_to_equations. lia. }
  unfold Date.YearFromTime.
  pose proof (YearFromDay_spec (Date.Day t)) as Hy.
  set (y := Date.YearFromDay (Date.Day t)) in *. clearbody y.
  unfold Date.DayFromYear in Hy. Z.div_mod_to_equations. lia.
Qed.

(** Month and day of the month of a time value form a date of the
    Gregorian calendar. *)
Lemma month_and_date t :
  1 <= Date.MonthFromTime t + 1 <= 12
  /\ 1 <= Date.DateFromTime t
     <= days_in_month (Date.InLeapYear (Date.YearFromTime t))
                      (Date.MonthFromTime t + 1).
Proof.
  pose proof (YearFromDay_spec (Date.Day t)) as Hy.
  pose proof (DayFromYear_leap (Date.YearFromDay (Date.Day t))) as Hl.
  unfold Date.DateFromTime, Date.MonthFromTime, Date.DayWithinYear,
    Date.YearFromTime.
  set (y := Date.YearFromDay (Date.Day t)) in *.
  set (dwy := Date.Day t - Date.DayFromYear y).
  assert (Hd : 0 <= dwy /\ dwy < if Date.InLeapYear y then 366 else 365)
    by (subst dwy; lia).
  clearbody dwy. clear Hy Hl.
  destruct (Date.InLeapYear y);
    cbv [Date.month_start];
    repeat match goal with
           | |- context [if ?a <? ?b then _ else _] =>
               destruct (Z.ltb_spec a b)
           end;
    cbn; lia.
Qed.

Lemma dateKeyOf_ymd t :
  fourDigitYear t = true ->
  dateKeyOf t
  = ymd_text (Date.YearFromTime t) (Date.MonthFromTime t + 1)
             (Date.DateFromTime t).
Proof.
  intros H. pose proof (fourDigitYear_range t H) as Hy.
  rewrite dateKeyOf_date_text. unfold date_text, ymd_text, Date.iso_year.
  replace ((0 <=? Date.YearFromTime t) && (Date.YearFromTime t <=? 9999))
    with true
    by (symmetry; apply andb_true_intro; split; apply Z.leb_le; lia).
  apply slice0_all.
  rewrite !string_length_app, !pad_length. cbn [String.length]. lia.
Qed.

Lemma ymd_text_length y m d : String.length (ymd_text y m d) = 10%nat.
Proof.
  unfold ymd_text. rewrite !string_length_app, !pad_length. reflexivity.
Qed.

(** [toDateKey] of a valid date with a year from 0 to 9999 does not throw
    and returns ten characters yyyy-mm-dd that name a date of the
    Gregorian calendar: month 1 to 12, day 1 to the length of that
    month. *)
Theorem toDateKey_calendar_date (t : Z) (w : World) :
  fourDigitYear t = true ->
  exists y m d,
    toDateKey (Num t) w = (Ok (ymd_text y m d), w)
    /\ String.length (ymd_text y m d) = 10%nat
    /\ 0 <= y <= 9999
    /\ 1 <= m <= 12
    /\ 1 <= d <= days_in_month (Date.InLeapYear y) m.
Proof.
  intros H.
  exists (Date.YearFromTime t), (Date.MonthFromTime t + 1),
    (Date.DateFromTime t).
  rewrite toDateKey_valid, (dateKeyOf_ymd t H).
  pose proof (month_and_date t) as [Hm Hd].
  pose proof (fourDigitYear_range t H).
  split; [reflexivity|]. split; [apply ymd_text_length|].
  repeat split; lia.
Qed.

(** [toUtc] undoes [toDateKey] up to the time of day: for a valid date
    with a year from 100 to 9999, [toUtc (toDateKey date)] is the UTC
    midnight that starts the day of [date], at most a day (less one
    millisecond) before it. *)
Theorem toUtc_of_toDateKey (t : Z) (w : World) :
  inKeyRange t = true ->
  exists key midnight,
    toDateKey (Num t) w = (Ok key, w)
    /\ toUtc key = Num midnight
    /\ midnight = Date.Day t * DAY_MS
    /\ midnight <= t < midnight + DAY_MS.
Proof.
  intros H. exists (dateKeyOf t), (Date.Day t * DAY_MS).
  split; [apply toDateKey_valid|].
  split; [now apply toUtc_dateKeyOf|]. split; [reflexivity|].
  unfold Date.Day, Date.msPerDay. change DAY_MS with 86400000.
  Z.div_mod_to_equations. lia.
Qed.

(** Two valid dates with years from 100 to 9999 get the same date key
    exactly when they lie on the same UTC day, and then only: the gap the
    function computes between their keys is the difference of their UTC
    day numbers. *)
Theorem toDateKey_same_key_iff_same_day (t1 t2 : Z) (w : World) :
  inKeyRange t1 = true ->
  inKeyRange t2 = true ->
  exists key1 key2,
    toDateKey (Num t1) w = (Ok key1, w)
    /\ toDateKey (Num t2) w = (Ok key2, w)
    /\ (key1 = key2 <-> Date.Day t1 = Date.Day t2)
    /\ dayDiff (toUtc key1) (toUtc key2) = Num (Date.Day t1 - Date.Day t2).
Proof.
  intros H1 H2. exists (dateKeyOf t1), (dateKeyOf t2).
  split; [apply toDateKey_valid|]. split; [apply toDateKey_valid|].
  split; [split|].
  - now apply dateKeyOf_inj.
  - apply dateKeyOf_day.
  - now apply gap_dateKeyOf.
Qed.

(** ** The [dateKeys] array is the collapsed list of the entries' keys *)

Lemma collapse_cons a b l :
  collapse (a :: b :: l)
  = if String.eqb a b then collapse (b :: l) else a :: collapse (b :: l).
Proof. reflexivity. Qed.

Lemma collapse_repeat l : forall k r,
  collapse (l ++ k :: k :: r) = collapse (l ++ k :: r).
Proof.
  induction l as [|a [|b l] IH]; intros k r.
  - cbn [app]. now rewrite collapse_cons, String.eqb_refl.
  - cbn [app]. rewrite !(collapse_cons a k).
    now rewrite (collapse_cons k k), String.eqb_refl.
  - change ((a :: b :: l) ++ k :: k :: r) with (a :: b :: (l ++ k :: k :: r)).
    change ((a :: b :: l) ++ k :: r) with (a :: b :: (l ++ k :: r)).
    rewrite !(collapse_cons a b).
    change (b :: (l ++ k :: k :: r)) with ((b :: l) ++ k :: k :: r).
    change (b :: (l ++ k :: r)) with ((b :: l) ++ k :: r).
    now rewrite IH.
Qed.

Lemma collapse_noRepeats_id l : noRepeats l = true -> collapse l = l.
Proof.
  unfold noRepeats. induction l as [|a [|b l] IH]; intros H; try reflexivity.
  rewrite adjacent_cons in H. apply andb_prop in H as [Hab H].
  rewrite collapse_cons. apply negb_true_iff in Hab. rewrite Hab.
  now rewrite (IH H).
Qed.

Lemma lastKey_cons a b l : lastKey (a :: b :: l) = lastKey (b :: l).
Proof. reflexivity. Qed.

Lemma lastKey_Some l : forall k,
  lastKey l = Some k -> exists l', l = l' ++ [k].
Proof.
  induction l as [|a [|b l] IH]; intros k H.
  - discriminate.
  - injection H as <-. now exists [].
  - rewrite lastKey_cons in H. destruct (IH k H) as (l' & Hl').
    exists (a :: l'). now rewrite Hl'.
Qed.

Lemma noRepeats_snoc acc : forall k,
  noRepeats acc = true ->
  (forall z, lastKey acc = Some z -> String.eqb z k = false) ->
  noRepeats (acc ++ [k]) = true.
Proof.
  unfold noRepeats.
  induction acc as [|a [|b acc] IH]; intros k Hs Hlast.
  - reflexivity.
  - cbn. now rewrite (Hlast a eq_refl).
  - change ((a :: b :: acc) ++ [k]) with (a :: b :: (acc ++ [k])).
    rewrite adjacent_cons in *. apply andb_prop in Hs as [Hab Hs].
    rewrite Hab. apply (IH k Hs). intros z Hz. apply Hlast. exact Hz.
Qed.

Lemma pushKey_noRepeats acc k :
  noRepeats acc = true -> noRepeats (pushKey acc k) = true.
Proof.
  intros H. unfold pushKey, lastDiffers.
  destruct (lastKey acc) as [z|] eqn:Hz.
  - destruct (String.eqb z k) eqn:E; cbn [negb]; [exact H|].
    apply noRepeats_snoc; [exact H|]. intros z' Hz'. congruence.
  - apply noRepeats_snoc; [exact H|]. intros z' Hz'. congruence.
Qed.

Lemma pushKey_collapse acc k ks :
  collapse (pushKey acc k ++ ks) = collapse (acc ++ k :: ks).
Proof.
  unfold pushKey, lastDiffers.
  destruct (lastKey acc) as [z|] eqn:Hz.
  - destruct (String.eqb_spec z k) as [->|Hne]; cbn [negb].
    + destruct (lastKey_Some _ _ Hz) as (acc' & ->).
      rewrite <- !app_assoc. cbn [app]. symmetry. apply collapse_repeat.
    + now rewrite <- app_assoc.
  - now rewrite <- app_assoc.
Qed.

Lemma pushKeys_collapse ks : forall acc,
  noRepeats acc = true -> pushKeys acc ks = collapse (acc ++ ks).
Proof.
  induction ks as [|k ks IH]; intros acc H.
  - rewrite app_nil_r. symmetry. now apply collapse_noRepeats_id.
  - unfold pushKeys. cbn [fold_left]. fold (pushKeys (pushKey acc k) ks).
    rewrite (IH _ (pushKey_noRepeats acc k H)). apply pushKey_collapse.
Qed.

Lemma pushKeys_noRepeats ks : forall acc,
  noRepeats acc = true -> noRepeats (pushKeys acc ks) = true.
Proof.
  induction ks as [|k ks IH]; intros acc H; [exact H|].
  unfold pushKeys. cbn [fold_left]. fold (pushKeys (pushKey acc k) ks).
  apply IH. now apply pushKey_noRepeats.
Qed.

Lemma collapse_In l : forall k, In k (collapse l) <-> In k l.
Proof.
  induction l as [|a [|b l] IH]; intros k; try reflexivity.
  rewrite collapse_cons. destruct (String.eqb_spec a b) as [->|Hne].
  - rewrite IH. cbn [In]. tauto.
  - cbn [In] in *. rewrite IH. tauto.
Qed.

Lemma collapse_length l :
  (List.length (collapse l) <= List.length l)%nat.
Proof.
  induction l as [|a [|b l] IH]; try (cbn; lia).
  rewrite collapse_cons. destruct (String.eqb a b); cbn [List.length] in *; lia.
Qed.

Lemma timestampsOf_length docs :
  (List.length (timestampsOf docs) <= List.length docs)%nat.
Proof.
  induction docs as [|doc docs IH]; [cbn; lia|].
  cbn [timestampsOf List.length].
  destruct (performedAt doc); cbn [List.length]; lia.
Qed.

Lemma dateKeysOf_length docs :
  (List.length (dateKeysOf docs) <= List.length docs)%nat.
Proof.
  unfold dateKeysOf. rewrite pushKeys_collapse by reflexivity. cbn [app].
  etransitivity; [apply collapse_length|].
  rewrite length_map. apply timestampsOf_length.
Qed.

(** The loop over the query result never throws and leaves in [dateKeys]
    the keys of the entries that bear a timestamp, in their order, with
    every key that repeats its predecessor dropped: no key is lost,
    none is invented, no two neighbours are equal, and there are at most
    as many keys as documents. *)
Theorem collectLoop_collapses_entry_keys (docs : list EntryDoc) (w : World) :
  exists dateKeys,
    collectLoop docs [] w = (Ok dateKeys, w)
    /\ dateKeys = collapse (map keyOfTimestamp (timestampsOf docs))
    /\ noRepeats dateKeys = true
    /\ (forall key, In key dateKeys
                    <-> exists ts, In ts (timestampsOf docs)
                                   /\ keyOfTimestamp ts = key)
    /\ (List.length dateKeys <= List.length docs)%nat.
Proof.
  exists (dateKeysOf docs). split; [apply collectLoop_run|].
  assert (Heq : dateKeysOf docs
                = collapse (map keyOfTimestamp (timestampsOf docs)))
    by (unfold dateKeysOf; now rewrite pushKeys_collapse).
  split; [exact Heq|]. split; [now apply pushKeys_noRepeats|].
  split; [|apply dateKeysOf_length].
  intros key. rewrite Heq, collapse_In, in_map_iff.
  split; intros (ts & H1 & H2); exists ts; tauto.
Qed.

(** ** Repeated keys do not change the streaks *)

Lemma dayDiff_self key :
  dayDiff (toUtc key) (toUtc key) = Num 0 \/ toUtc key = NaN.
Proof.
  destruct (toUtc key) as [x|]; [left|now right].
  unfold dayDiff, JS.sub, JS.round_div. f_equal.
  replace (2 * (x - x) + DAY_MS) with DAY_MS by lia. reflexivity.
Qed.

Lemma dayDiff_NaN_r a : dayDiff a NaN = NaN.
Proof. now destruct a. Qed.

Lemma currentLoop_repeat key rest streak previousUtc :
  currentLoop (key :: key :: rest) streak previousUtc
  = currentLoop (key :: rest) streak previousUtc.
Proof.
  cbn [currentLoop].
  destruct (JS.eqq (dayDiff previousUtc (toUtc key)) 0) eqn:E0.
  - reflexivity.
  - destruct (JS.eqq (dayDiff previousUtc (toUtc key)) 1) eqn:E1;
      [|reflexivity].
    destruct (dayDiff_self key) as [Hs|Hn].
    + now rewrite Hs.
    + rewrite Hn, dayDiff_NaN_r in E1. discriminate.
Qed.

Lemma currentLoop_cons key rest streak previousUtc :
  currentLoop (key :: rest) streak previousUtc
  = if JS.eqq (dayDiff previousUtc (toUtc key)) 0
    then currentLoop rest streak previousUtc
    else if JS.eqq (dayDiff previousUtc (toUtc key)) 1
         then currentLoop rest (streak + 1) (toUtc key)
         else streak.
Proof. reflexivity. Qed.

Lemma longestLoop_cons key keys longest run previousUtc :
  longestLoop (key :: keys) longest run previousUtc
  = match previousUtc with
    | None => longestLoop keys (Z.max longest 1) 1 (Some (toUtc key))
    | Some previous =>
        if JS.eqq (dayDiff previous (toUtc key)) 0
        then longestLoop keys longest run previousUtc
        else
          let run' :=
            if JS.eqq (dayDiff previous (toUtc key)) 1 then run + 1 else 1 in
          longestLoop keys (Z.max longest run') run' (Some (toUtc key))
    end.
Proof. reflexivity. Qed.

Lemma currentLoop_collapse keys : forall streak previousUtc,
  currentLoop (collapse keys) streak previousUtc
  = currentLoop keys streak previousUtc.
Proof.
  induction keys as [|a [|b keys] IH]; intros streak previousUtc;
    try reflexivity.
  rewrite collapse_cons. destruct (String.eqb_spec a b) as [->|Hne].
  - now rewrite IH, currentLoop_repeat.
  - rewrite !(currentLoop_cons a).
    destruct (JS.eqq (dayDiff previousUtc (toUtc a)) 0); [apply IH|].
    destruct (JS.eqq (dayDiff previousUtc (toUtc a)) 1); [apply IH|].
    reflexivity.
Qed.

Lemma longestLoop_repeat key rest longest run previousUtc :
  longestLoop (key :: key :: rest) longest run previousUtc
  = longestLoop (key :: rest) longest run previousUtc.
Proof.
  cbn [longestLoop].
  assert (Hskip : forall l r,
    (if JS.eqq (dayDiff (toUtc key) (toUtc key)) 0
     then longestLoop rest (Z.max l 1) 1 (Some (toUtc key))
     else longestLoop rest
            (Z.max (Z.max l 1)
               (if JS.eqq (dayDiff (toUtc key) (toUtc key)) 1
                then r + 1 else 1))
            (if JS.eqq (dayDiff (toUtc key) (toUtc key)) 1 then r + 1 else 1)
            (Some (toUtc key)))
    = longestLoop rest (Z.max l 1) 1 (Some (toUtc key))).
  { intros l r. destruct (dayDiff_self key) as [Hs|Hn].
    - now rewrite Hs.
    - rewrite Hn, dayDiff_NaN_r. cbn [JS.eqq].
      now replace (Z.max (Z.max l 1) 1) with (Z.max l 1) by lia. }
  destruct previousUtc as [previous|].
  - destruct (JS.eqq (dayDiff previous (toUtc key)) 0) eqn:E0.
    + reflexivity.
    + destruct (JS.eqq (dayDiff previous (toUtc key)) 1) eqn:E1.
      * destruct (dayDiff_self key) as [Hs|Hn].
        -- now rewrite Hs.
        -- rewrite Hn, dayDiff_NaN_r in E1. discriminate.
      * apply (Hskip longest 1).
  - apply (Hskip longest 1).
Qed.

Lemma longestLoop_collapse keys : forall longest run previousUtc,
  longestLoop (collapse keys) longest run previousUtc
  = longestLoop keys longest run previousUtc.
Proof.
  induction keys as [|a [|b keys] IH]; intros longest run previousUtc;
    try reflexivity.
  rewrite collapse_cons. destruct (String.eqb_spec a b) as [->|Hne].
  - now rewrite IH, longestLoop_repeat.
  - rewrite !(longestLoop_cons a). destruct previousUtc as [previous|].
    + destruct (JS.eqq (dayDiff previous (toUtc a)) 0); apply IH.
    + apply IH.
Qed.

Lemma collapse_head a l : exists l', collapse (a :: l) = a :: l'.
Proof.
  revert a. induction l as [|b l IH]; intros a; [now exists []|].
  rewrite collapse_cons. destruct (String.eqb_spec a b) as [->|Hne].
  - apply IH.
  - now exists (collapse (b :: l)).
Qed.

Lemma currentLoop_NaN rest streak : currentLoop rest streak NaN = streak.
Proof. destruct rest; reflexivity. Qed.

(** Starting the scan at the first key itself changes nothing. *)
Lemma currentLoop_from_first first rest streak :
  currentLoop (first :: rest) streak (toUtc first)
  = currentLoop rest streak (toUtc first).
Proof.
  cbn [currentLoop]. destruct (dayDiff_self first) as [Hs|Hn].
  - now rewrite Hs.
  - rewrite Hn. cbn. now rewrite currentLoop_NaN.
Qed.

Lemma currentStreakAt_collapse t keys :
  currentStreakAt t (collapse keys) = currentStreakAt t keys.
Proof.
  destruct keys as [|first rest]; [reflexivity|].
  destruct (collapse_head first rest) as (rest' & Hc). rewrite Hc.
  unfold currentStreakAt. destruct (JS.gt _ 1); [reflexivity|].
  rewrite <- (currentLoop_from_first first rest').
  rewrite <- (currentLoop_from_first first rest).
  rewrite <- Hc. apply currentLoop_collapse.
Qed.

(** Both computations give the same result on a key list and on the list
    with repeated neighbours removed: the [diff === 0] branches make them
    independent of the collapsing the caller does. *)
Theorem streaks_ignore_repeated_keys (keys : list DateKey) (w : World) :
  computeCurrentStreak (collapse keys) w = computeCurrentStreak keys w
  /\ computeLongestStreak (collapse keys) = computeLongestStreak keys.
Proof.
  split.
  - rewrite !computeCurrentStreak_run, currentStreakAt_collapse.
    destruct keys as [|first rest]; [reflexivity|].
    destruct (collapse_head first rest) as (rest' & ->). reflexivity.
  - destruct keys as [|first rest]; [reflexivity|].
    destruct (collapse_head first rest) as (rest' & Hc).
    unfold computeLongestStreak. rewrite Hc, <- Hc.
    apply longestLoop_collapse.
Qed.

(** ** Bounds *)

Lemma currentLoop_le_length rest : forall streak previousUtc,
  currentLoop rest streak previousUtc <= streak + Z.of_nat (List.length rest).
Proof.
  induction rest as [|key rest IH]; intros streak previousUtc;
    cbn [currentLoop List.length]; [lia|].
  destruct (JS.eqq _ 0).
  - specialize (IH streak previousUtc). lia.
  - destruct (JS.eqq _ 1); [|lia].
    specialize (IH (streak + 1) (toUtc key)). lia.
Qed.

Lemma longestLoop_le_length keys : forall longest run previousUtc,
  0 <= run ->
  longestLoop keys longest run previousUtc
  <= Z.max longest (run + Z.of_nat (List.length keys)).
Proof.
  induction keys as [|key keys IH]; intros longest run previousUtc Hr;
    cbn [longestLoop List.length]; [lia|].
  destruct previousUtc as [previous|].
  - destruct (JS.eqq _ 0).
    + specialize (IH longest run (Some previous) Hr). lia.
    + destruct (JS.eqq _ 1).
      * specialize (IH (Z.max longest (run + 1)) (run + 1)
                      (Some (toUtc key))). lia.
      * specialize (IH (Z.max longest 1) 1 (Some (toUtc key))). lia.
  - specialize (IH (Z.max longest 1) 1 (Some (toUtc key))). lia.
Qed.

Lemma computeLongestStreak_le_length keys :
  computeLongestStreak keys <= Z.of_nat (List.length keys).
Proof.
  destruct keys as [|first rest]; [cbn; lia|].
  unfold computeLongestStreak.
  pose proof (longestLoop_le_length (first :: rest) 0 0 None). lia.
Qed.

Lemma computeLongestStreak_pos first rest :
  1 <= computeLongestStreak (first :: rest).
Proof.
  unfold computeLongestStreak. cbn [longestLoop].
  etransitivity; [|apply longestLoop_ge]. lia.
Qed.

(** One run writes [0 <= currentStreak <= candidate <= number of
    documents in the query result], so with the query's [limit(120)] no
    run reports a current streak or a new candidate above 120; the
    candidate is 0 exactly when no entry bears a timestamp. *)
Theorem streaks_bounded_by_window
    (habitDoc : HabitDoc) (docs : list EntryDoc) (w : World) :
  exists written w' current,
    processHabit habitDoc docs w = (Ok written, w')
    /\ currentStreak written = Some current
    /\ 0 <= current <= computeLongestStreak (dateKeysOf docs)
    /\ computeLongestStreak (dateKeysOf docs) <= Z.of_nat (List.length docs)
    /\ longestStreak written
       = Some (Z.max (previousLongestOf habitDoc)
                     (computeLongestStreak (dateKeysOf docs)))
    /\ (computeLongestStreak (dateKeysOf docs) = 0
        <-> timestampsOf docs = []).
Proof.
  rewrite processHabit_run. do 3 eexists. split; [reflexivity|].
  cbn [currentStreak longestStreak]. split; [reflexivity|].
  split; [split; [apply currentStreakAt_nonneg
                 |apply currentStreakAt_le_longest]|].
  split.
  { etransitivity; [apply computeLongestStreak_le_length|].
    pose proof (dateKeysOf_length docs). lia. }
  split; [reflexivity|].
  unfold dateKeysOf. destruct (timestampsOf docs) as [|ts T] eqn:HT.
  - split; reflexivity.
  - split; [|discriminate]. intros H. exfalso.
    rewrite pushKeys_collapse in H by reflexivity. cbn [app map] in H.
    destruct (collapse_head (keyOfTimestamp ts) (map keyOfTimestamp T))
      as (l' & Hc).
    rewrite Hc in H. pose proof (computeLongestStreak_pos (keyOfTimestamp ts) l').
    lia.
Qed.

(** ** How a new newest key changes the results *)

Lemma currentLoop_shift rest : forall streak previousUtc d,
  currentLoop rest (streak + d) previousUtc
  = currentLoop rest streak previousUtc + d.
Proof.
  induction rest as [|key rest IH]; intros streak previousUtc d;
    [reflexivity|].
  rewrite !currentLoop_cons.
  destruct (JS.eqq _ 0); [apply IH|].
  destruct (JS.eqq _ 1); [|reflexivity].
  replace (streak + d + 1) with (streak + 1 + d) by lia. apply IH.
Qed.

Lemma gap_Num_inv a b g :
  gap a b = Num g -> exists x y, toUtc a = Num x /\ toUtc b = Num y.
Proof.
  unfold gap, dayDiff. destruct (toUtc a) as [x|], (toUtc b) as [y|];
    try discriminate.
  intros _. now exists x, y.
Qed.

(** With [g] the gap from today back to the newest key: once a key for
    today is put in front, the current streak is the former one plus one
    when [g = 1], and 1 when [g >= 2] (the former one being 0 then). *)
Theorem logging_today_extends_or_restarts
    (w : World) (first : DateKey) (rest : list DateKey) (g : Z) :
  gap (dateKeyOf (now w)) first = Num g ->
  exists before after,
    computeCurrentStreak (first :: rest) w = (Ok before, tick w)
    /\ computeCurrentStreak (dateKeyOf (now w) :: first :: rest) w
       = (Ok after, tick w)
    /\ (g = 1 -> after = before + 1)
    /\ (2 <= g -> before = 0 /\ after = 1).
Proof.
  intros Hgap. rewrite !computeCurrentStreak_run. unfold currentStreakAt.
  set (today := dateKeyOf (now w)) in *.
  fold (gap today first). rewrite Hgap.
  destruct (gap_Num_inv _ _ _ Hgap) as (x & y & Hx & Hy).
  destruct (dayDiff_self today) as [Hs|Hn]; [|congruence].
  rewrite Hs. cbn [JS.gt]. rewrite currentLoop_cons.
  fold (gap today first). rewrite Hgap. cbn [JS.gt JS.eqq].
  do 2 eexists. split; [reflexivity|]. split; [reflexivity|]. split.
  - intros ->. cbn.
    change 2 with (1 + 1). apply currentLoop_shift.
  - intros Hg.
    replace (1 <? g) with true by (symmetry; apply Z.ltb_lt; lia).
    replace (g =? 0) with false by (symmetry; apply Z.eqb_neq; lia).
    replace (g =? 1) with false by (symmetry; apply Z.eqb_neq; lia).
    split; reflexivity.
Qed.

Lemma longestLoop_step_bounds keys : forall l l' r r' previousUtc,
  l <= l' <= l + 1 -> r <= r' <= r + 1 ->
  longestLoop keys l r previousUtc <= longestLoop keys l' r' previousUtc
  <= longestLoop keys l r previousUtc + 1.
Proof.
  induction keys as [|key keys IH]; intros l l' r r' previousUtc Hl Hr;
    [cbn; lia|].
  rewrite !longestLoop_cons. destruct previousUtc as [previous|].
  - destruct (JS.eqq _ 0); [now apply IH|].
    cbv zeta. destruct (JS.eqq _ 1); apply IH; lia.
  - apply IH; lia.
Qed.

Lemma sameDay_toUtc a b : sameDay a b = true -> toUtc a = toUtc b.
Proof.
  unfold sameDay, gap.
  destruct (toUtc a) as [x|] eqn:Ha; [|discriminate].
  destruct (toUtc b) as [y|] eqn:Hb; [|discriminate].
  destruct (toUtc_midnight _ _ Ha) as [dx ->].
  destruct (toUtc_midnight _ _ Hb) as [dy ->].
  rewrite dayDiff_days. cbn [JS.eqq]. intros H. apply Z.eqb_eq in H.
  f_equal. f_equal. lia.
Qed.

(** Putting one more key in front of the keys never lowers the
    longest-streak candidate and raises it by one at most. *)
Theorem computeLongestStreak_new_first_key
    (key : DateKey) (keys : list DateKey) :
  computeLongestStreak keys <= computeLongestStreak (key :: keys)
  <= computeLongestStreak keys + 1.
Proof.
  destruct keys as [|first rest]; [cbn; lia|].
  unfold computeLongestStreak.
  rewrite (longestLoop_cons key), (longestLoop_cons first rest).
  replace (Z.max 0 1) with 1 by reflexivity.
  rewrite (longestLoop_cons first rest 1 1).
  fold (gap key first). fold (sameDay key first).
  destruct (sameDay key first) eqn:Hsame.
  - rewrite (sameDay_toUtc _ _ Hsame). lia.
  - cbv zeta. destruct (JS.eqq (gap key first) 1).
    + apply longestLoop_step_bounds; lia.
    + replace (Z.max 1 1) with 1 by reflexivity. lia.
Qed.

(** ** Running the calculation again *)

(** A second run on the same query result writes the same
    [longestStreak] and [lastEntryAt] as the first, and the same
    [currentStreak] if its clock shows the same UTC day: the merge with
    the stored value is idempotent. *)
Theorem recalculation_is_idempotent
    (habitDoc : HabitDoc) (docs : list EntryDoc) (w1 w2 : World) :
  exists once w1' twice w2',
    processHabit habitDoc docs w1 = (Ok once, w1')
    /\ processHabit once docs w2 = (Ok twice, w2')
    /\ longestStreak twice = longestStreak once
    /\ lastEntryAt twice = lastEntryAt once
    /\ (dateKeyOf (now w2) = dateKeyOf (now w1) ->
        currentStreak twice = currentStreak once).
Proof.
  rewrite !processHabit_run. do 4 eexists.
  split; [reflexivity|]. rewrite processHabit_run.
  split; [reflexivity|]. cbn [longestStreak lastEntryAt currentStreak].
  split; [|split; [reflexivity|]].
  - unfold previousLongestOf at 1. cbn [longestStreak]. f_equal. lia.
  - intros Hday. unfold currentStreakAt. now rewrite Hday.
Qed.

(** ** The handler treats every habit on its own *)

Lemma clock_tick w : clock (tick w) = clock w.
Proof. reflexivity. Qed.

Lemma clock_afterStreak keys w : clock (afterStreak keys w) = clock w.
Proof. destruct keys; reflexivity. Qed.

Lemma calculateStreaks_each habits : forall processed w,
  exists written w',
    calculateStreaks habits processed w
    = (Ok (written, processed + Z.of_nat (List.length habits)), w')
    /\ Forall2 (fun habit out =>
                  exists wi wi',
                    clock wi = clock w
                    /\ processHabit (fst habit) (snd habit) wi = (Ok out, wi'))
               habits written.
Proof.
  induction habits as [|[habitDoc docs] habits IH]; intros processed w.
  - exists [], w. split; [|constructor].
    cbn [calculateStreaks List.length Z.of_nat]. now rewrite Z.add_0_r.
  - cbn [calculateStreaks].
    rewrite (bind_ok _ _ _ _ _ (processHabit_run habitDoc docs w)).
    match goal with
    | |- context [bind (calculateStreaks habits ?n) _ ?w1] =>
        destruct (IH n w1) as (written & w' & Hrun & Hall);
        assert (Hclock : clock w1 = clock w)
          by (now rewrite clock_tick, clock_afterStreak)
    end.
    rewrite (bind_ok _ _ _ _ _ Hrun). do 2 eexists. split.
    + unfold ret. cbn [fst snd List.length].
      replace (processed + Z.of_nat (S (List.length habits)))
        with (processed + 1 + Z.of_nat (List.length habits)) by lia.
      reflexivity.
    + constructor.
      * exists w. eexists. split; [reflexivity|]. cbn [fst snd].
        apply processHabit_run.
      * eapply Forall2_impl; [|exact Hall].
        intros habit out (wi & wi' & Hc & Hp). exists wi, wi'.
        split; [congruence|exact Hp].
Qed.

(** The handler never throws, reports as [processed] the number of habit
    documents and writes one document per habit, in order; what it
    writes for a habit is what a run on that habit alone writes at some
    point of the same clock: no habit influences another. *)
Theorem calculateStreaks_processes_each_habit_alone
    (habits : list (HabitDoc * list EntryDoc)) (w : World) :
  exists written w',
    calculateStreaks habits 0 w
    = (Ok (written, Z.of_nat (List.length habits)), w')
    /\ List.length written = List.length habits
    /\ Forall2 (fun habit out =>
                  exists wi wi',
                    clock wi = clock w
                    /\ processHabit (fst habit) (snd habit) wi = (Ok out, wi'))
               habits written.
Proof.
  destruct (calculateStreaks_each habits 0 w) as (written & w' & Hrun & Hall).
  exists written, w'. split; [exact Hrun|].
  split; [|exact Hall]. symmetry. exact (Forall2_length Hall).
Qed.

(** ** Results in terms of calendar days *)

(** On a query result in descending order whose timestamps have years
    from 100 to 9999, the loop leaves the date keys sorted strictly newest
    first: each key is a UTC day earlier than its predecessor. *)
Theorem collectLoop_sorted_newest_first (docs : list EntryDoc) (w : World) :
  descendingEntries docs = true ->
  keyRangeEntries docs = true ->
  exists dateKeys,
    collectLoop docs [] w = (Ok dateKeys, w)
    /\ newestFirst dateKeys = true
    /\ distinctDays dateKeys = true.
Proof.
  intros Hdesc Hrange. exists (dateKeysOf docs).
  split; [apply collectLoop_run|].
  assert (Hs : newestFirst (dateKeysOf docs) = true).
  { unfold descendingEntries, keyRangeEntries, dateKeysOf in *.
    destruct (timestampsOf docs) as [|x T]; [reflexivity|].
    cbn [forallb] in Hrange. apply andb_prop in Hrange as [Hx Hrange].
    cbn [map]. unfold pushKeys. cbn [fold_left]. fold pushKeys.
    apply (pushKeys_newestFirst T _ x); try assumption; reflexivity. }
  split; [exact Hs|now apply newestFirst_distinctDays].
Qed.

Lemma keyOfTimestamp_dayKey ts : keyOfTimestamp ts = dayKey (entryDay ts).
Proof. apply dayKey_of_time. Qed.

Lemma dayKey_eqb a b :
  dayInRange a = true -> dayInRange b = true ->
  String.eqb (dayKey a) (dayKey b) = (a =? b).
Proof.
  intros Ha Hb. destruct (Z.eqb_spec a b) as [->|Hne].
  - apply String.eqb_refl.
  - apply String.eqb_neq. intros H. unfold dayKey in H.
    apply dateKeyOf_inj in H; try now rewrite inKeyRange_day.
    rewrite !Day_of_day in H. contradiction.
Qed.

Lemma collapseDays_cons a b l :
  collapseDays (a :: b :: l)
  = if a =? b then collapseDays (b :: l) else a :: collapseDays (b :: l).
Proof. reflexivity. Qed.

Lemma collapse_dayKey days :
  forallb dayInRange days = true ->
  collapse (map dayKey days) = map dayKey (collapseDays days).
Proof.
  induction days as [|a [|b days] IH]; intros Hr; try reflexivity.
  apply forallb_tail in Hr as [Ha Hr].
  pose proof (forallb_tail _ _ _ Hr) as [Hb _].
  change (map dayKey (a :: b :: days))
    with (dayKey a :: dayKey b :: map dayKey days).
  rewrite collapse_cons, collapseDays_cons, dayKey_eqb by assumption.
  change (dayKey b :: map dayKey days) with (map dayKey (b :: days)).
  rewrite (IH Hr). now destruct (a =? b).
Qed.

Lemma collapseDays_head a l : exists l', collapseDays (a :: l) = a :: l'.
Proof.
  revert a. induction l as [|b l IH]; intros a; [now exists []|].
  rewrite collapseDays_cons. destruct (Z.eqb_spec a b) as [->|Hne].
  - apply IH.
  - now exists (collapseDays (b :: l)).
Qed.

Lemma collapseDays_forallb (P : Z -> bool) days :
  forallb P days = true -> forallb P (collapseDays days) = true.
Proof.
  induction days as [|a [|b days] IH]; intros Hr; try exact Hr.
  apply forallb_tail in Hr as [Ha Hr]. rewrite collapseDays_cons.
  destruct (a =? b); [now apply IH|].
  cbn [forallb]. now rewrite Ha, (IH Hr).
Qed.

Lemma collapseDays_descending days :
  adjacent (fun a b => b <=? a) days = true ->
  descendingDays (collapseDays days) = true.
Proof.
  unfold descendingDays.
  induction days as [|a [|b days] IH]; intros Hd; try reflexivity.
  rewrite adjacent_cons in Hd. apply andb_prop in Hd as [Hab Hd].
  rewrite collapseDays_cons. destruct (Z.eqb_spec a b) as [->|Hne];
    [now apply IH|].
  specialize (IH Hd). destruct (collapseDays_head b days) as (l' & Hl').
  rewrite Hl' in *. rewrite adjacent_cons, IH, andb_true_r.
  apply Z.leb_le in Hab. apply Z.ltb_lt. lia.
Qed.

Lemma entryDays_descending (T : list Timestamp) :
  adjacent (fun a b => ts_leb b a) T = true ->
  adjacent (fun a b => b <=? a) (map entryDay T) = true.
Proof.
  induction T as [|a [|b T] IH]; intros Hd; try reflexivity.
  rewrite adjacent_cons in Hd. apply andb_prop in Hd as [Hab Hd].
  change (map entryDay (a :: b :: T))
    with (entryDay a :: entryDay b :: map entryDay T).
  rewrite adjacent_cons.
  change (entryDay b :: map entryDay T) with (map entryDay (b :: T)).
  rewrite (IH Hd), andb_true_r. apply Z.leb_le.
  apply Day_mono, ts_leb_millis, Hab.
Qed.

Lemma entryDays_inRange (T : list Timestamp) :
  forallb (fun ts => inKeyRange (millis ts)) T = true ->
  forallb dayInRange (map entryDay T) = true.
Proof.
  induction T as [|a T IH]; intros Hr; [reflexivity|].
  apply forallb_tail in Hr as [Ha Hr]. cbn [map forallb].
  rewrite (IH Hr), andb_true_r. now apply dayInRange_Day.
Qed.

(** The [dateKeys] array is the keys of the distinct days of the entries. *)
Lemma dateKeysOf_days docs :
  keyRangeEntries docs = true ->
  dateKeysOf docs
  = map dayKey (collapseDays (map entryDay (timestampsOf docs))).
Proof.
  intros Hr. unfold dateKeysOf.
  rewrite pushKeys_collapse by reflexivity. cbn [app].
  rewrite <- collapse_dayKey by now apply entryDays_inRange.
  rewrite map_map. f_equal. apply map_ext.
  intros ts. apply keyOfTimestamp_dayKey.
Qed.

(** On a query result in descending order whose timestamps have years
    from 100 to 9999, with [days] the UTC days of the entries' [toDate()]
    values, each day once, and [late] the number of days from the newest
    of them to the day of the clock: the days are strictly descending; a
    run writes as [currentStreak] the number of days in the run of
    consecutive days that [days] starts with when [late <= 1] (the
    newest entry is of today, of yesterday, or dated ahead) and 0 when
    [late >= 2]; it writes as [longestStreak] the larger of the stored
    value (0 if none is stored) and the number of days in the longest run
    of consecutive days in [days]. *)
Theorem streak_by_calendar_day
    (habitDoc : HabitDoc) (docs : list EntryDoc) (w : World)
    (newest : Timestamp) (T : list Timestamp) :
  timestampsOf docs = newest :: T ->
  descendingEntries docs = true ->
  keyRangeEntries docs = true ->
  inKeyRange (now w) = true ->
  let days := collapseDays (map entryDay (timestampsOf docs)) in
  let late := Date.Day (now w) - entryDay newest in
  let stored := match longestStreak habitDoc with
                | Some previous => previous
                | None => 0
                end in
  exists written w',
    processHabit habitDoc docs w = (Ok written, w')
    /\ descendingDays days = true
    /\ currentStreak written
       = Some (if 1 <? late then 0 else leadingRun days)
    /\ longestStreak written = Some (Z.max stored (longestRun days)).
Proof.
  intros HT Hdesc Hrange Hnow days late stored.
  assert (Hd : descendingDays days = true)
    by (apply collapseDays_descending, entryDays_descending, Hdesc).
  assert (Hr : forallb dayInRange days = true)
    by (apply collapseDays_forallb, entryDays_inRange, Hrange).
  rewrite processHabit_run. do 2 eexists. split; [reflexivity|].
  split; [exact Hd|]. cbn [currentStreak longestStreak].
  rewrite (dateKeysOf_days docs Hrange). fold days.
  rewrite (computeLongestStreak_dayKey days Hr Hd).
  split; [|reflexivity]. f_equal.
  subst days late. rewrite HT in *. cbn [map] in *.
  destruct (collapseDays_head (entryDay newest) (map entryDay T))
    as (l' & Hl').
  rewrite Hl' in *. now apply currentStreakAt_dayKey.
Qed.

(** On the keys of strictly descending days from 0100-01-01 to
    9999-12-31, with the clock in those years: the current streak is 0
    when the newest day is more than one day before the day of the clock;
    otherwise it is the length of the run of consecutive days the
    sequence starts with, which is followed by nothing or by a day more
    than one day before the run's last. *)
Theorem computeCurrentStreak_of_days
    (w : World) (first : Z) (rest : list Z) :
  descendingDays (first :: rest) = true ->
  forallb dayInRange (first :: rest) = true ->
  inKeyRange (now w) = true ->
  (1 < Date.Day (now w) - first ->
   computeCurrentStreak (map dayKey (first :: rest)) w = (Ok 0, tick w))
  /\ (Date.Day (now w) - first <= 1 ->
      exists run tail,
        first :: rest = run ++ tail
        /\ run <> []
        /\ consecutiveDays run = true
        /\ computeCurrentStreak (map dayKey (first :: rest)) w
           = (Ok (Z.of_nat (List.length run)), tick w)
        /\ match tail with
           | [] => True
           | next :: _ => 1 < last run first - next
           end).
Proof.
  intros Hd Hr Ht. rewrite computeCurrentStreak_run.
  rewrite (currentStreakAt_dayKey _ _ _ Hr Hd Ht). cbn [map]. split.
  - intros Hlate.
    now replace (1 <? Date.Day (now w) - first) with true
      by (symmetry; apply Z.ltb_lt; lia).
  - intros Hlate.
    replace (1 <? Date.Day (now w) - first) with false
      by (symmetry; apply Z.ltb_ge; lia).
    destruct (leadingRun_split rest first)
      as (run & tail & Heq & Hne & Hc & Hlen & Hbreak).
    exists run, tail. rewrite Hlen. repeat split; try assumption.
    destruct tail as [|next tail]; [exact I|].
    rewrite Heq in Hd.
    pose proof (descending_last_step run first next tail Hne Hd). lia.
Qed.

(** On the keys of strictly descending days from 0100-01-01 to
    9999-12-31 the longest-streak candidate is the greatest length of a
    segment of consecutive days: some segment of consecutive days has
    that length and none is longer. *)
Theorem computeLongestStreak_of_days (days : list Z) :
  descendingDays days = true ->
  forallb dayInRange days = true ->
  (exists before run after,
     days = before ++ run ++ after
     /\ consecutiveDays run = true
     /\ computeLongestStreak (map dayKey days) = Z.of_nat (List.length run))
  /\ (forall before run after,
        days = before ++ run ++ after ->
        consecutiveDays run = true ->
        Z.of_nat (List.length run) <= computeLongestStreak (map dayKey days)).
Proof.
  intros Hd Hr. rewrite (computeLongestStreak_dayKey _ Hr Hd). split.
  - destruct (longestRun_attained days) as (before & run & after & Heq & Hc & Hl).
    exists before, run, after. repeat split; congruence.
  - intros before run after -> Hc. now apply longestRun_upper.
Qed.

(** ** Instances *)

(** 29 February 2024, 23:59:59.999 UTC. *)
Lemma toDateKey_calendar_date_witness :
  fourDigitYear 1709251199999 = true
  /\ exists y m d,
       toDateKey (Num 1709251199999) on_march1 = (Ok (ymd_text y m d), on_march1)
       /\ String.length (ymd_text y m d) = 10%nat
       /\ 0 <= y <= 9999
       /\ 1 <= m <= 12
       /\ 1 <= d <= days_in_month (Date.InLeapYear y) m.
Proof.
  split; [vm_compute; reflexivity|].
  apply toDateKey_calendar_date. vm_compute. reflexivity.
Defined.

Lemma toUtc_of_toDateKey_witness :
  inKeyRange 1709251199999 = true
  /\ exists key midnight,
       toDateKey (Num 1709251199999) on_march1 = (Ok key, on_march1)
       /\ toUtc key = Num midnight
       /\ midnight = Date.Day 1709251199999 * DAY_MS
       /\ midnight <= 1709251199999 < midnight + DAY_MS.
Proof.
  split; [vm_compute; reflexivity|].
  apply toUtc_of_toDateKey. vm_compute. reflexivity.
Defined.

(** 29 February 2024 at 23:59:59.999 and 1 March 2024 at 00:00:00.000. *)
Lemma toDateKey_same_key_iff_same_day_witness :
  inKeyRange 1709251199999 = true
  /\ inKeyRange 1709251200000 = true
  /\ exists key1 key2,
       toDateKey (Num 1709251199999) on_march1 = (Ok key1, on_march1)
       /\ toDateKey (Num 1709251200000) on_march1 = (Ok key2, on_march1)
       /\ (key1 = key2 <-> Date.Day 1709251199999 = Date.Day 1709251200000)
       /\ dayDiff (toUtc key1) (toUtc key2)
          = Num (Date.Day 1709251199999 - Date.Day 1709251200000).
Proof.
  split; [vm_compute; reflexivity|].
  split; [vm_compute; reflexivity|].
  apply toDateKey_same_key_iff_same_day; vm_compute; reflexivity.
Defined.

Lemma collectLoop_sorted_newest_first_witness :
  descendingEntries sample_docs = true
  /\ keyRangeEntries sample_docs = true
  /\ exists dateKeys,
       collectLoop sample_docs [] on_march1 = (Ok dateKeys, on_march1)
       /\ newestFirst dateKeys = true
       /\ distinctDays dateKeys = true.
Proof.
  split; [vm_compute; reflexivity|].
  split; [vm_compute; reflexivity|].
  apply collectLoop_sorted_newest_first; vm_compute; reflexivity.
Defined.

(** The sample entries for a habit with a stored longest streak of 10,
    the clock on 2 March 2024. *)
Lemma streak_by_calendar_day_witness :
  descendingEntries sample_docs = true
  /\ keyRangeEntries sample_docs = true
  /\ inKeyRange (now on_march2) = true
  /\ collapseDays (map entryDay (timestampsOf sample_docs))
     = [19783; 19782; 19778; 19777; 19776]
  /\ Date.Day (now on_march2) = 19784
  /\ fst (processHabit veteran_habit sample_docs on_march2)
     = Ok {| currentStreak := Some 2; longestStreak := Some 10;
             lastEntryAt := performedAt march1_0900;
             updatedAt := Some 1709337600000 |}
  /\ fst (processHabit sample_habit sample_docs on_march3)
     = Ok {| currentStreak := Some 0; longestStreak := Some 3;
             lastEntryAt := performedAt march1_0900;
             updatedAt := Some 1709474000000 |}
  /\ exists written w',
       processHabit veteran_habit sample_docs on_march2 = (Ok written, w')
       /\ descendingDays [19783; 19782; 19778; 19777; 19776] = true
       /\ currentStreak written = Some 2
       /\ longestStreak written = Some 10.
Proof.
  split; [vm_compute; reflexivity|].
  split; [vm_compute; reflexivity|].
  split; [vm_compute; reflexivity|].
  split; [vm_compute; reflexivity|].
  split; [vm_compute; reflexivity|].
  split; [vm_compute; reflexivity|].
  split; [vm_compute; reflexivity|].
  apply (streak_by_calendar_day veteran_habit sample_docs on_march2
           (mkTimestamp 1709283600 0 eq_refl)
           (tl (timestampsOf sample_docs))).
  - reflexivity.
  - vm_compute. reflexivity.
  - vm_compute. reflexivity.
  - vm_compute. reflexivity.
Defined.

(** The sample days, the clock on 2 March 2024. *)
Lemma computeCurrentStreak_of_days_witness :
  descendingDays [19783; 19782; 19778; 19777; 19776] = true
  /\ forallb dayInRange [19783; 19782; 19778; 19777; 19776] = true
  /\ inKeyRange (now on_march2) = true
  /\ map dayKey [19783; 19782; 19778; 19777; 19776] = sample_keys
  /\ Date.Day (now on_march2) - 19783 = 1
  /\ computeCurrentStreak sample_keys on_march2 = (Ok 2, tick on_march2)
  /\ exists run tail,
       [19783; 19782; 19778; 19777; 19776] = run ++ tail
       /\ run <> []
       /\ consecutiveDays run = true
       /\ computeCurrentStreak
            (map dayKey [19783; 19782; 19778; 19777; 19776]) on_march2
          = (Ok (Z.of_nat (List.length run)), tick on_march2)
       /\ match tail with
          | [] => True
          | next :: _ => 1 < last run 19783 - next
          end.
Proof.
  split; [vm_compute; reflexivity|].
  split; [vm_compute; reflexivity|].
  split; [vm_compute; reflexivity|].
  split; [vm_compute; reflexivity|].
  split; [vm_compute; reflexivity|].
  split; [vm_compute; reflexivity|].
  apply (computeCurrentStreak_of_days on_march2 19783
           [19782; 19778; 19777; 19776]).
  - vm_compute. reflexivity.
  - vm_compute. reflexivity.
  - vm_compute. reflexivity.
  - vm_compute. discriminate.
Defined.

Lemma computeLongestStreak_of_days_witness :
  descendingDays [19783; 19782; 19778; 19777; 19776] = true
  /\ forallb dayInRange [19783; 19782; 19778; 19777; 19776] = true
  /\ map dayKey [19783; 19782; 19778; 19777; 19776] = sample_keys
  /\ computeLongestStreak sample_keys = 3
  /\ (exists before run after,
        [19783; 19782; 19778; 19777; 19776] = before ++ run ++ after
        /\ consecutiveDays run = true
        /\ computeLongestStreak
             (map dayKey [19783; 19782; 19778; 19777; 19776])
           = Z.of_nat (List.length run))
  /\ (forall before run after,
        [19783; 19782; 19778; 19777; 19776] = before ++ run ++ after ->
        consecutiveDays run = true ->
        Z.of_nat (List.length run)
        <= computeLongestStreak
             (map dayKey [19783; 19782; 19778; 19777; 19776])).
Proof.
  split; [vm_compute; reflexivity|].
  split; [vm_compute; reflexivity|].
  split; [vm_compute; reflexivity|].
  split; [vm_compute; reflexivity|].
  apply (computeLongestStreak_of_days [19783; 19782; 19778; 19777; 19776]).
  - vm_compute. reflexivity.
  - vm_compute. reflexivity.
Defined.

(** The clock on 2 March, the newest key of 1 March. *)
Lemma logging_today_extends_or_restarts_witness :
  gap (dateKeyOf (now on_march2)) "2024-03-01" = Num 1
  /\ exists before after,
       computeCurrentStreak sample_keys on_march2 = (Ok before, tick on_march2)
       /\ computeCurrentStreak (dateKeyOf (now on_march2) :: sample_keys)
            on_march2
          = (Ok after, tick on_march2)
       /\ (1 = 1 -> after = before + 1)
       /\ (2 <= 1 -> before = 0 /\ after = 1).
Proof.
  split; [vm_compute; reflexivity|].
  apply (logging_today_extends_or_restarts on_march2 "2024-03-01"
           (tl sample_keys) 1).
  vm_compute. reflexivity.
Defined.

Lemma recalculation_is_idempotent_witness :
  dateKeyOf (now on_march1) = dateKeyOf (now on_march1)
  /\ exists once w1' twice w2',
       processHabit sample_habit sample_docs on_march1 = (Ok once, w1')
       /\ processHabit once sample_docs on_march1 = (Ok twice, w2')
       /\ longestStreak twice = longestStreak once
       /\ lastEntryAt twice = lastEntryAt once
       /\ (dateKeyOf (now on_march1) = dateKeyOf (now on_march1) ->
           currentStreak twice = currentStreak once).
Proof.
  split; [reflexivity|].
  apply recalculation_is_idempotent.
Defined.

(** * Properties of the browser client *)

Module FirebaseClientFacts.
Import FirebaseClient.

Section WithRuntime.
Context {R : Runtime}.

(** [getPort] returns a finite number whenever its fallback is one, and
    it departs from the fallback only for a variable that is set, not
    empty and a finite number, which it then returns. *)
Theorem getPort_finite_or_fallback (name fallback : string) :
  (isFinite (Number fallback) = true ->
   isFinite (getPort name fallback) = true)
  /\ (getPort name fallback = Number fallback
      \/ exists v,
           env ("NEXT_PUBLIC_FIREBASE_" ++ name ++ "_PORT")%string = Some v
           /\ v <> ""
           /\ isFinite (Number v) = true
           /\ getPort name fallback = Number v).
Proof.
  unfold getPort.
  destruct (env ("NEXT_PUBLIC_FIREBASE_" ++ name ++ "_PORT")%string)
    as [v|]; [|split; [trivial|now left]].
  destruct (String.eqb_spec v ""); [split; [trivial|now left]|].
  destruct (isFinite (Number v)) eqn:Hv; [|split; [trivial|now left]].
  split; [intros _; exact Hv|]. right. now exists v.
Qed.

(** ** What the steps keep *)

Lemma filter_snoc {A} (f : A -> bool) l a :
  filter f (l ++ [a]) = filter f l ++ (if f a then [a] else []).
Proof. rewrite filter_app. reflexivity. Qed.

Lemma consistent_attempted apps s :
  consistent apps s -> consistent apps (attempted s).
Proof. intros [H1 H2 H3 H4]. constructor; assumption. Qed.

(** Setting [emulatorsConfigured] when the four connections are the last
    that were made. *)
Lemma consistent_setEmulatorsConfigured apps s :
  consistent apps s ->
  (connectsEmulators = true ->
   exists earlier,
     filter isConnect (calls s)
     = earlier ++ emulatorConnections (clientsOf (chosenApp apps))) ->
  consistent apps (setEmulatorsConfigured s).
Proof.
  intros [H1 H2 H3 H4] H. constructor; try assumption.
  intros _. exact H.
Qed.

Lemma consistent_assignClients apps s :
  consistent apps s ->
  consistent apps (assignClients (clientsOf (chosenApp apps)) s).
Proof.
  intros [H1 H2 H3 H4]. constructor; try assumption.
  cbn [assignClients firebaseClients]. now intros clients [= <-].
Qed.

(** A call that connects no emulator and creates no app. *)
Lemma consistent_record apps s c :
  isInitializeApp c = false -> isConnect c = false ->
  consistent apps s -> consistent apps (record c s).
Proof.
  intros Hi Hc [H1 H2 H3 H4].
  constructor; cbn [record registry calls firebaseClients emulatorsConfigured].
  - rewrite filter_snoc, Hi, app_nil_r. exact H1.
  - exact H2.
  - intros c' Hin Hconn. apply in_app_or in Hin as [Hin|[<-|[]]].
    + now apply H3.
    + congruence.
  - rewrite filter_snoc, Hc, app_nil_r. exact H4.
Qed.

(** A connection of an emulator, made before [emulatorsConfigured] is
    set. *)
Lemma consistent_connection apps s c :
  emulatorsConfigured s = false ->
  connectsEmulators = true ->
  In c (emulatorConnections (clientsOf (chosenApp apps))) ->
  consistent apps s -> consistent apps (record c s).
Proof.
  intros Hconf Hflag Hc [H1 H2 H3 H4].
  assert (Hi : isInitializeApp c = false).
  { cbn in Hc. decompose [or] Hc; subst; try reflexivity. contradiction. }
  constructor; cbn [record registry calls firebaseClients emulatorsConfigured].
  - rewrite filter_snoc, Hi, app_nil_r. exact H1.
  - exact H2.
  - intros c' Hin Hconn. apply in_app_or in Hin as [Hin|[<-|[]]].
    + now apply H3.
    + now split.
  - congruence.
Qed.

Lemma consistent_initializeApp apps s :
  registry s = [] ->
  consistent apps s ->
  apps = []
  /\ consistent apps
       (register {| options := firebaseConfig |}
          (record (InitializeApp firebaseConfig) s)).
Proof.
  intros Hreg [H1 H2 H3 H4].
  assert (Happs : apps = []).
  { destruct H1 as [(E & _)|(E & _)]; congruence. }
  split; [exact Happs|]. subst apps.
  destruct H1 as [(_ & Hinit)|(_ & E & _)]; [|rewrite Hreg in E; discriminate].
  constructor;
    cbn [register record registry calls firebaseClients emulatorsConfigured].
  - right. rewrite Hreg, filter_snoc, Hinit. repeat split.
  - exact H2.
  - intros c' Hin Hconn. apply in_app_or in Hin as [Hin|[<-|[]]].
    + now apply H3.
    + discriminate.
  - rewrite filter_snoc, app_nil_r. exact H4.
Qed.

(** The first registered app is the chosen one. *)
Lemma consistent_first apps s first rest :
  consistent apps s -> registry s = first :: rest -> first = chosenApp apps.
Proof.
  intros [H1 _ _ _] Hreg.
  destruct H1 as [(E & _)|(-> & E & _)]; rewrite Hreg in E.
  - now subst apps.
  - now injection E.
Qed.

Lemma consistent_loaded apps sdkThrows : consistent apps (loaded apps sdkThrows).
Proof.
  constructor; cbn [loaded registry calls firebaseClients emulatorsConfigured].
  - now left.
  - discriminate.
  - contradiction.
  - discriminate.
Qed.

(** ** The three functions *)

Ltac step_sdk :=
  match goal with
  | |- context [throws ?s ?c ?n] =>
      let E := fresh "Hthrows" in
      destruct (throws s c n) eqn:E
  end.

Ltac state_fields :=
  cbn [fst snd attempted record register assignClients setEmulatorsConfigured
       throws attempts calls registry firebaseClients emulatorsConfigured].

Ltac keep_consistent :=
  repeat first
    [ assumption
    | apply consistent_attempted
    | apply consistent_assignClients
    | apply consistent_record; [reflexivity | reflexivity |] ].

Ltac quiet_sdk Hquiet :=
  step_sdk;
  [ match goal with
    | H : throws _ _ _ = true |- _ => rewrite Hquiet in H; discriminate
    end
  | state_fields ].

Ltac returned_clients :=
  match goal with
  | H : Returned _ = Returned _ |- _ => injection H as <-; reflexivity
  end.

(** [ensureClients] keeps the state consistent and connects nothing;
    when it returns, it returns the clients of the chosen app and has
    them cached. *)
Lemma ensureClients_consistent apps s :
  consistent apps s ->
  consistent apps (snd (ensureClients s))
  /\ throws (snd (ensureClients s)) = throws s
  /\ emulatorsConfigured (snd (ensureClients s)) = emulatorsConfigured s
  /\ filter isConnect (calls (snd (ensureClients s)))
     = filter isConnect (calls s)
  /\ forall clients, fst (ensureClients s) = Returned clients ->
       clients = clientsOf (chosenApp apps)
       /\ firebaseClients (snd (ensureClients s)) = Some clients.
Proof.
  intros Hs. unfold ensureClients.
  destruct (firebaseClients s) as [cached|] eqn:Hcached.
  { cbn [fst snd]. split; [exact Hs|]. repeat split.
    - injection H as <-. now apply (consistent_clients _ _ Hs).
    - now injection H as <-. }
  destruct (registry s) as [|first rest] eqn:Hreg.
  - unfold initializeApp, andThen, sdk, modify, done.
    destruct (consistent_initializeApp apps (attempted s) Hreg
                (consistent_attempted _ _ Hs)) as (-> & Hinit).
    repeat (step_sdk; state_fields);
      (split; [keep_consistent|]); state_fields;
      rewrite ?filter_snoc; cbn [isConnect]; rewrite ?app_nil_r;
      repeat split; try discriminate; returned_clients.
  - pose proof (consistent_first _ _ _ _ Hs Hreg) as ->.
    unfold andThen, sdk, modify, done.
    repeat (step_sdk; state_fields);
      (split; [keep_consistent|]); state_fields;
      rewrite ?filter_snoc; cbn [isConnect]; rewrite ?app_nil_r;
      repeat split; try discriminate; returned_clients.
Qed.

(** Without cached clients and with a [getAuth] that throws,
    [ensureClients] throws and caches nothing. *)
Lemma ensureClients_getAuth_throws s :
  (forall a k, throws s (GetAuth a) k = true) ->
  firebaseClients s = None ->
  fst (ensureClients s) = Thrown
  /\ firebaseClients (snd (ensureClients s)) = None.
Proof.
  intros Hauth Hnone. unfold ensureClients. rewrite Hnone.
  destruct (registry s) as [|first rest];
    unfold initializeApp, andThen, sdk, modify, done;
    repeat (step_sdk; state_fields);
    try (split; [reflexivity|assumption]);
    rewrite Hauth in *; discriminate.
Qed.

(** With an SDK that does not throw, [ensureClients] returns. *)
Lemma ensureClients_returns apps s :
  (forall c k, throws s c k = false) ->
  consistent apps s ->
  fst (ensureClients s) = Returned (clientsOf (chosenApp apps)).
Proof.
  intros Hquiet Hs. unfold ensureClients.
  destruct (firebaseClients s) as [cached|] eqn:Hcached.
  { cbn [fst]. f_equal. now apply (consistent_clients _ _ Hs). }
  destruct (registry s) as [|first rest] eqn:Hreg.
  - destruct (consistent_initializeApp apps (attempted s) Hreg
                (consistent_attempted _ _ Hs)) as (-> & _).
    unfold initializeApp, andThen, sdk, modify, done.
    repeat quiet_sdk Hquiet. reflexivity.
  - pose proof (consistent_first _ _ _ _ Hs Hreg) as ->.
    unfold andThen, sdk, modify, done.
    repeat quiet_sdk Hquiet. reflexivity.
Qed.

(** [maybeConnectEmulators] on the clients of the chosen app. *)
Lemma maybeConnectEmulators_consistent apps s :
  consistent apps s ->
  let r := maybeConnectEmulators (clientsOf (chosenApp apps)) s in
  consistent apps (snd r)
  /\ throws (snd r) = throws s
  /\ firebaseClients (snd r) = firebaseClients s
  /\ (emulatorsConfigured s = true -> snd r = s).
Proof.
  intros Hs. cbv zeta. unfold maybeConnectEmulators.
  destruct (emulatorsConfigured s) eqn:Hconf.
  { cbn [snd]. split; [exact Hs|]. repeat split. }
  destruct (envIsTrue "NEXT_PUBLIC_USE_FIREBASE_EMULATORS") eqn:Hflag;
    cbn [negb].
  - destruct hasWindow eqn:Hwin; cbn [negb].
    + assert (Hyes : connectsEmulators = true)
        by (unfold connectsEmulators; now rewrite Hflag, Hwin).
      unfold andThen, sdk, modify, done.
      repeat (step_sdk; state_fields);
        (split; [|repeat split; discriminate]);
        try apply consistent_setEmulatorsConfigured;
        try (intros _; exists (filter isConnect (calls s));
             state_fields; rewrite !filter_snoc; cbn [isConnect];
             now rewrite <- !app_assoc);
        repeat first
          [ assumption
          | apply consistent_attempted
          | apply consistent_connection;
            [ state_fields; exact Hconf
            | exact Hyes
            | cbn; auto 6
            | ] ].
    + cbn [snd]. split; [exact Hs|]. repeat split; discriminate.
  - cbn [snd setEmulatorsConfigured throws firebaseClients].
    split; [|repeat split; discriminate].
    apply consistent_setEmulatorsConfigured; [exact Hs|].
    intros Hyes. unfold connectsEmulators in Hyes. rewrite Hflag in Hyes.
    discriminate.
Qed.

(** With an SDK that does not throw, [maybeConnectEmulators] returns,
    having connected the emulators if they are to be connected and were
    not before. *)
Lemma maybeConnectEmulators_returns clients s :
  (forall c k, throws s c k = false) ->
  let r := maybeConnectEmulators clients s in
  fst r = Returned tt
  /\ emulatorsConfigured (snd r)
     = (emulatorsConfigured s
        || negb (envIsTrue "NEXT_PUBLIC_USE_FIREBASE_EMULATORS") || hasWindow)
  /\ filter isConnect (calls (snd r))
     = filter isConnect (calls s)
         ++ (if negb (emulatorsConfigured s) && connectsEmulators
             then emulatorConnections clients else []).
Proof.
  intros Hquiet. cbv zeta. unfold maybeConnectEmulators, connectsEmulators.
  destruct (emulatorsConfigured s) eqn:Hconf.
  { cbn [fst snd negb andb orb]. rewrite Hconf, app_nil_r. repeat split. }
  destruct (envIsTrue "NEXT_PUBLIC_USE_FIREBASE_EMULATORS") eqn:Hflag;
    cbn [negb andb orb].
  - destruct hasWindow eqn:Hwin; cbn [negb].
    + unfold andThen, sdk, modify, done.
      repeat quiet_sdk Hquiet. state_fields.
      rewrite !filter_snoc. cbn [isConnect]. rewrite <- !app_assoc.
      repeat split.
    + cbn [fst snd]. rewrite Hconf, app_nil_r. repeat split.
  - cbn [fst snd setEmulatorsConfigured emulatorsConfigured calls].
    rewrite app_nil_r. repeat split.
Qed.

(** [getFirebaseClients] keeps the state consistent; when it returns, it
    returns the clients of the chosen app, which are cached. *)
Lemma getFirebaseClients_consistent apps s :
  consistent apps s ->
  consistent apps (snd (getFirebaseClients s))
  /\ throws (snd (getFirebaseClients s)) = throws s
  /\ forall clients, fst (getFirebaseClients s) = Returned clients ->
       clients = clientsOf (chosenApp apps)
       /\ firebaseClients (snd (getFirebaseClients s)) = Some clients.
Proof.
  intros Hs.
  destruct (ensureClients_consistent apps s Hs)
    as (Hs1 & Ht1 & _ & _ & Hret).
  unfold getFirebaseClients, andThen.
  destruct (ensureClients s) as [[clients|] s1]; cbn [fst snd] in *;
    [|split; [exact Hs1|split; [exact Ht1|discriminate]]].
  destruct (Hret clients eq_refl) as (-> & Hcached).
  assert (H2 : exists s2 (o : Outcome unit),
             (if hasWindow
              then sdk (SetPersistence (auth (clientsOf (chosenApp apps)))) tt
              else done tt) s1 = (o, s2)
             /\ consistent apps s2 /\ throws s2 = throws s1
             /\ firebaseClients s2 = firebaseClients s1).
  { destruct hasWindow; unfold sdk, done; [step_sdk|];
      do 2 eexists; (split; [reflexivity|]);
      (split; [keep_consistent|split; reflexivity]). }
  destruct H2 as (s2 & o & -> & Hs2 & Ht2 & Hc2).
  destruct o as [[]|]; [|cbn [fst snd];
    split; [exact Hs2|split; [congruence|discriminate]]].
  destruct (maybeConnectEmulators_consistent apps s2 Hs2)
    as (Hs3 & Ht3 & Hc3 & _).
  cbv zeta in *.
  destruct (maybeConnectEmulators (clientsOf (chosenApp apps)) s2)
    as [[[]|] s3]; cbn [fst snd done] in *.
  - split; [exact Hs3|]. split; [congruence|].
    intros clients [= <-]. split; [reflexivity|congruence].
  - split; [exact Hs3|]. split; [congruence|discriminate].
Qed.

(** Once [emulatorsConfigured] is set, a call connects nothing. *)
Lemma getFirebaseClients_configured apps s :
  consistent apps s ->
  emulatorsConfigured s = true ->
  emulatorsConfigured (snd (getFirebaseClients s)) = true
  /\ filter isConnect (calls (snd (getFirebaseClients s)))
     = filter isConnect (calls s).
Proof.
  intros Hs Hconf.
  destruct (ensureClients_consistent apps s Hs)
    as (Hs1 & _ & Hc1 & Hf1 & Hret).
  unfold getFirebaseClients, andThen.
  destruct (ensureClients s) as [[clients|] s1]; cbn [fst snd] in *;
    [|split; congruence].
  destruct (Hret clients eq_refl) as (-> & _).
  destruct hasWindow; unfold sdk, done; [step_sdk|];
    cbn [fst snd]; state_fields;
    try (split; [congruence|rewrite ?filter_snoc; cbn [isConnect];
                            rewrite ?app_nil_r; exact Hf1]).
  - unfold maybeConnectEmulators. state_fields. rewrite Hc1, Hconf.
    state_fields. rewrite filter_snoc. cbn [isConnect].
    rewrite app_nil_r. split; congruence.
  - unfold maybeConnectEmulators. rewrite Hc1, Hconf.
    cbn [fst snd]. split; congruence.
Qed.

(** With an SDK that does not throw, a call returns. *)
Lemma getFirebaseClients_returns apps s :
  (forall c k, throws s c k = false) ->
  consistent apps s ->
  let r := getFirebaseClients s in
  fst r = Returned (clientsOf (chosenApp apps))
  /\ emulatorsConfigured (snd r)
     = (emulatorsConfigured s
        || negb (envIsTrue "NEXT_PUBLIC_USE_FIREBASE_EMULATORS") || hasWindow)
  /\ filter isConnect (calls (snd r))
     = filter isConnect (calls s)
         ++ (if negb (emulatorsConfigured s) && connectsEmulators
             then emulatorConnections (clientsOf (chosenApp apps)) else []).
Proof.
  intros Hquiet Hs. cbv zeta.
  pose proof (ensureClients_returns apps s Hquiet Hs) as Hret.
  destruct (ensureClients_consistent apps s Hs)
    as (_ & Ht1 & Hc1 & Hf1 & _).
  unfold getFirebaseClients, andThen.
  destruct (ensureClients s) as [o s1]; cbn [fst snd] in *. subst o.
  assert (Hquiet1 : forall c k, throws s1 c k = false)
    by (intros c k; now rewrite Ht1).
  assert (H2 : exists s2,
             (if hasWindow
              then sdk (SetPersistence (auth (clientsOf (chosenApp apps)))) tt
              else done tt) s1 = (Returned tt, s2)
             /\ throws s2 = throws s1
             /\ emulatorsConfigured s2 = emulatorsConfigured s1
             /\ filter isConnect (calls s2) = filter isConnect (calls s1)).
  { destruct hasWindow; unfold sdk, done; [rewrite Hquiet1|];
      eexists; (split; [reflexivity|]); state_fields;
      rewrite ?filter_snoc; cbn [isConnect]; rewrite ?app_nil_r;
      repeat split. }
  destruct H2 as (s2 & -> & Ht2 & Hc2 & Hf2).
  assert (Hquiet2 : forall c k, throws s2 c k = false)
    by (intros c k; now rewrite Ht2).
  destruct (maybeConnectEmulators_returns (clientsOf (chosenApp apps)) s2
              Hquiet2) as (Hr3 & Hc3 & Hf3).
  cbv zeta in *.
  destruct (maybeConnectEmulators (clientsOf (chosenApp apps)) s2)
    as [o s3]; cbn [fst snd] in *. subst o.
  unfold done. cbn [fst snd]. split; [reflexivity|].
  rewrite Hc3, Hf3, Hc2, Hf2, Hc1, Hf1. split; reflexivity.
Qed.

(** With a [getAuth] that throws, a call throws and caches nothing. *)
Lemma getFirebaseClients_getAuth_throws s :
  (forall a k, throws s (GetAuth a) k = true) ->
  firebaseClients s = None ->
  fst (getFirebaseClients s) = Thrown
  /\ firebaseClients (snd (getFirebaseClients s)) = None.
Proof.
  intros Hauth Hnone.
  destruct (ensureClients_getAuth_throws s Hauth Hnone) as (Hthrown & Hstill).
  unfold getFirebaseClients, andThen.
  destruct (ensureClients s) as [o s1]; cbn [fst snd] in *. subst o.
  cbn [fst snd]. now split.
Qed.

(** ** Any number of calls *)

Lemma after_succ n : forall s,
  after (S n) s = snd (getFirebaseClients (after n s)).
Proof.
  induction n as [|n IH]; intros s; [reflexivity|].
  change (after (S (S n)) s) with (after (S n) (snd (getFirebaseClients s))).
  now rewrite IH.
Qed.

Lemma consistent_after apps sdkThrows n :
  consistent apps (after n (loaded apps sdkThrows))
  /\ throws (after n (loaded apps sdkThrows)) = sdkThrows.
Proof.
  induction n as [|n [IH Ht]].
  - split; [apply consistent_loaded|reflexivity].
  - rewrite after_succ.
    destruct (getFirebaseClients_consistent apps _ IH) as (Hs & Ht' & _).
    split; [exact Hs|congruence].
Qed.

Lemma configured_after apps m : forall s,
  consistent apps s ->
  emulatorsConfigured s = true ->
  emulatorsConfigured (after m s) = true
  /\ filter isConnect (calls (after m s)) = filter isConnect (calls s).
Proof.
  induction m as [|m IH]; intros s Hs Hconf; [now split|].
  cbn [after].
  destruct (getFirebaseClients_consistent apps s Hs) as (Hs1 & _).
  destruct (getFirebaseClients_configured apps s Hs Hconf) as (Hc1 & Hf1).
  destruct (IH _ Hs1 Hc1) as (Hc & Hf). split; congruence.
Qed.

Lemma quiet_after apps sdkThrows n :
  (forall c k, sdkThrows c k = false) ->
  let s := after (S n) (loaded apps sdkThrows) in
  emulatorsConfigured s
  = (negb (envIsTrue "NEXT_PUBLIC_USE_FIREBASE_EMULATORS") || hasWindow)
  /\ filter isConnect (calls s)
     = if connectsEmulators
       then emulatorConnections (clientsOf (chosenApp apps)) else [].
Proof.
  intros Hquiet. cbv zeta. induction n as [|n [IHc IHf]].
  - destruct (getFirebaseClients_returns apps (loaded apps sdkThrows))
      as (_ & Hc & Hf); [exact Hquiet|apply consistent_loaded|].
    cbn [after]. split; [exact Hc|exact Hf].
  - rewrite after_succ.
    destruct (consistent_after apps sdkThrows (S n)) as (Hs & Ht).
    destruct (getFirebaseClients_returns apps _
                ltac:(intros c k; rewrite Ht; apply Hquiet) Hs)
      as (_ & Hc & Hf).
    rewrite Hc, Hf, IHc, IHf. unfold connectsEmulators.
    destruct (envIsTrue "NEXT_PUBLIC_USE_FIREBASE_EMULATORS"), hasWindow;
      cbn [negb andb orb]; rewrite ?app_nil_r; split; reflexivity.
Qed.

Lemma getAuth_throws_after apps sdkThrows n :
  (forall a k, sdkThrows (GetAuth a) k = true) ->
  firebaseClients (after n (loaded apps sdkThrows)) = None.
Proof.
  intros Hauth. induction n as [|n IH]; [reflexivity|].
  rewrite after_succ.
  destruct (consistent_after apps sdkThrows n) as (_ & Ht).
  apply getFirebaseClients_getAuth_throws; [|exact IH].
  intros a k. rewrite Ht. apply Hauth.
Qed.

(** From the loading of the module on, whatever the SDK answers:
    [initializeApp] returns once at most, and never if the registry had
    an app, so the registry never holds a second app of the module's
    making; every call of [getFirebaseClients] that returns, returns the
    clients of the first app the SDK already had or else of the one new
    app with [firebaseConfig], and has them cached.  If no call into the
    SDK throws, every call returns; if [getAuth] throws every time (an
    app without an API key), every call throws and nothing is cached. *)
Theorem getFirebaseClients_one_app
    (apps : list FirebaseApp) (sdkThrows : SdkCall -> nat -> bool) (n : nat) :
  let s := after n (loaded apps sdkThrows) in
  ((registry s = apps /\ filter isInitializeApp (calls s) = [])
   \/ (apps = [] /\ registry s = [{| options := firebaseConfig |}]
       /\ filter isInitializeApp (calls s) = [InitializeApp firebaseConfig]))
  /\ (forall clients s',
        getFirebaseClients s = (Returned clients, s') ->
        clients = clientsOf (chosenApp apps)
        /\ firebaseClients s' = Some clients)
  /\ ((forall c k, sdkThrows c k = false) ->
      fst (getFirebaseClients s) = Returned (clientsOf (chosenApp apps)))
  /\ ((forall a k, sdkThrows (GetAuth a) k = true) ->
      fst (getFirebaseClients s) = Thrown
      /\ firebaseClients (snd (getFirebaseClients s)) = None).
Proof.
  cbv zeta. destruct (consistent_after apps sdkThrows n) as (Hs & Ht).
  split; [|split; [|split]].
  - destruct (consistent_apps _ _ Hs) as [H|(-> & H)]; [now left|now right].
  - intros clients s' Hrun.
    destruct (getFirebaseClients_consistent apps _ Hs) as (_ & _ & Hret).
    rewrite Hrun in Hret. now apply Hret.
  - intros Hquiet. apply getFirebaseClients_returns; [|exact Hs].
    intros c k. rewrite Ht. apply Hquiet.
  - intros Hauth. apply getFirebaseClients_getAuth_throws.
    + intros a k. rewrite Ht. apply Hauth.
    + now apply getAuth_throws_after.
Qed.

(** After any number of calls, whatever the SDK answers: an emulator
    connection that was made is one of the four for the clients of the
    chosen app, with the configured host and ports, and none is made
    unless the flag is the text "true" and the code runs in a browser;
    [emulatorsConfigured] is set with that flag only after the four
    connections were made in their order; once it is set, no later call
    connects again.  A connection that throws leaves it unset, so the
    next call connects anew; if no call into the SDK throws, the
    emulators are connected exactly once. *)
Theorem emulators_connected_as_configured
    (apps : list FirebaseApp) (sdkThrows : SdkCall -> nat -> bool) (n : nat) :
  let s := after n (loaded apps sdkThrows) in
  let connections := emulatorConnections (clientsOf (chosenApp apps)) in
  (forall c, In c (calls s) -> isConnect c = true ->
             connectsEmulators = true /\ In c connections)
  /\ (emulatorsConfigured s = true -> connectsEmulators = true ->
      exists earlier, filter isConnect (calls s) = earlier ++ connections)
  /\ (emulatorsConfigured s = true ->
      forall m,
        emulatorsConfigured (after m s) = true
        /\ filter isConnect (calls (after m s)) = filter isConnect (calls s))
  /\ ((forall c k, sdkThrows c k = false) -> (0 < n)%nat ->
      filter isConnect (calls s)
      = (if connectsEmulators then connections else [])
      /\ emulatorsConfigured s
         = (negb (envIsTrue "NEXT_PUBLIC_USE_FIREBASE_EMULATORS")
            || hasWindow)).
Proof.
  cbv zeta. destruct (consistent_after apps sdkThrows n) as (Hs & Ht).
  split; [|split; [|split]].
  - exact (consistent_connect _ _ Hs).
  - exact (consistent_configured _ _ Hs).
  - intros Hconf m. now apply (configured_after apps).
  - intros Hquiet Hn. destruct n as [|n]; [inversion Hn|].
    destruct (quiet_after apps sdkThrows n Hquiet) as (Hc & Hf).
    split; [exact Hf|exact Hc].
Qed.

End WithRuntime.

(** In the sample runtime the AUTH variable is not a number and the
    FIRESTORE variable is 8085.  With an SDK that does not throw, two
    calls connect the emulators once. *)
Example sample_connections :
  filter (@isConnect sampleRuntime)
         (calls (@after sampleRuntime 2
                   (@loaded sampleRuntime [] (@neverThrows sampleRuntime))))
  = let a := {| options := @firebaseConfig sampleRuntime |} in
    [@ConnectAuthEmulator sampleRuntime (AuthOf a) "http://127.0.0.1:9099";
     @ConnectFirestoreEmulator sampleRuntime (FirestoreOf a) "127.0.0.1"
       (Num 8085);
     @ConnectStorageEmulator sampleRuntime (StorageOf a) "127.0.0.1"
       (Num 9199);
     @ConnectFunctionsEmulator sampleRuntime (FunctionsOf a) "127.0.0.1"
       (Num 5001)].
Proof. reflexivity. Qed.

(** The sample runtime sets no API key.  With a [getAuth] that throws,
    three calls throw, cache nothing, connect nothing and leave one app
    in the registry. *)
Example sample_getAuth_throws :
  let s := @after sampleRuntime 3
             (@loaded sampleRuntime [] (@getAuthThrows sampleRuntime)) in
  @apiKey (@firebaseConfig sampleRuntime) = None
  /\ fst (@getFirebaseClients sampleRuntime s) = Thrown
  /\ firebaseClients s = None
  /\ emulatorsConfigured s = false
  /\ filter (@isConnect sampleRuntime) (calls s) = []
  /\ registry s = [{| options := @firebaseConfig sampleRuntime |}].
Proof. repeat split. Qed.

(** When the connection of the Storage emulator throws in the first
    call, the second call connects the Auth and Firestore emulators a
    second time. *)
Example sample_reconnection :
  let s1 := @after sampleRuntime 1
              (@loaded sampleRuntime []
                 (@storageEmulatorThrowsOnce sampleRuntime)) in
  let s2 := @after sampleRuntime 1 s1 in
  let a := {| options := @firebaseConfig sampleRuntime |} in
  let connectAuth :=
    @ConnectAuthEmulator sampleRuntime (AuthOf a) "http://127.0.0.1:9099" in
  let connectFirestore :=
    @ConnectFirestoreEmulator sampleRuntime (FirestoreOf a) "127.0.0.1"
      (Num 8085) in
  emulatorsConfigured s1 = false
  /\ filter (@isConnect sampleRuntime) (calls s1)
     = [connectAuth; connectFirestore]
  /\ emulatorsConfigured s2 = true
  /\ filter (@isConnect sampleRuntime) (calls s2)
     = [connectAuth; connectFirestore; connectAuth; connectFirestore;
        @ConnectStorageEmulator sampleRuntime (StorageOf a) "127.0.0.1"
          (Num 9199);
        @ConnectFunctionsEmulator sampleRuntime (FunctionsOf a) "127.0.0.1"
          (Num 5001)].
Proof. repeat split. Qed.

(** The sample runtime over an empty registry, three calls: with an SDK
    that does not throw the third call returns the clients of the new
    app; with a [getAuth] that throws it throws and nothing is cached. *)
Lemma getFirebaseClients_one_app_witness :
  let quiet := @after sampleRuntime 2
                 (@loaded sampleRuntime [] (@neverThrows sampleRuntime)) in
  let failing := @after sampleRuntime 2
                   (@loaded sampleRuntime [] (@getAuthThrows sampleRuntime)) in
  (forall c k, @neverThrows sampleRuntime c k = false)
  /\ fst (@getFirebaseClients sampleRuntime quiet)
     = Returned (clientsOf {| options := @firebaseConfig sampleRuntime |})
  /\ filter (@isInitializeApp sampleRuntime) (calls quiet)
     = [@InitializeApp sampleRuntime (@firebaseConfig sampleRuntime)]
  /\ (forall a k, @getAuthThrows sampleRuntime (GetAuth a) k = true)
  /\ fst (@getFirebaseClients sampleRuntime failing) = Thrown
  /\ firebaseClients (snd (@getFirebaseClients sampleRuntime failing)) = None
  /\ filter (@isInitializeApp sampleRuntime) (calls failing)
     = [@InitializeApp sampleRuntime (@firebaseConfig sampleRuntime)].
Proof.
  cbv zeta.
  destruct (@getFirebaseClients_one_app sampleRuntime []
              (@neverThrows sampleRuntime) 2) as (_ & _ & Hquiet & _).
  destruct (@getFirebaseClients_one_app sampleRuntime []
              (@getAuthThrows sampleRuntime) 2) as (_ & _ & _ & Hauth).
  split; [reflexivity|]. split; [apply Hquiet; reflexivity|].
  split; [reflexivity|]. split; [reflexivity|].
  destruct Hauth as [Hthrown Hnone]; [reflexivity|].
  split; [exact Hthrown|]. split; [exact Hnone|reflexivity].
Defined.

(** The sample runtime over an empty registry, with an SDK that does not
    throw: after one call [emulatorsConfigured] is set, and after three
    more calls the connections are those of the first. *)
Lemma emulators_connected_as_configured_witness :
  let s := @after sampleRuntime 1
             (@loaded sampleRuntime [] (@neverThrows sampleRuntime)) in
  let a := {| options := @firebaseConfig sampleRuntime |} in
  (forall c k, @neverThrows sampleRuntime c k = false)
  /\ (0 < 1)%nat
  /\ emulatorsConfigured s = true
  /\ @connectsEmulators sampleRuntime = true
  /\ filter (@isConnect sampleRuntime) (calls s)
     = [@ConnectAuthEmulator sampleRuntime (AuthOf a) "http://127.0.0.1:9099";
        @ConnectFirestoreEmulator sampleRuntime (FirestoreOf a) "127.0.0.1"
          (Num 8085);
        @ConnectStorageEmulator sampleRuntime (StorageOf a) "127.0.0.1"
          (Num 9199);
        @ConnectFunctionsEmulator sampleRuntime (FunctionsOf a) "127.0.0.1"
          (Num 5001)]
  /\ filter (@isConnect sampleRuntime) (calls s)
     = @emulatorConnections sampleRuntime (clientsOf a)
  /\ filter (@isConnect sampleRuntime) (calls (@after sampleRuntime 3 s))
     = filter (@isConnect sampleRuntime) (calls s).
Proof.
  cbv zeta.
  destruct (@emulators_connected_as_configured sampleRuntime []
              (@neverThrows sampleRuntime) 1) as (_ & _ & Hfrozen & Hquiet).
  split; [reflexivity|]. split; [constructor|].
  split; [reflexivity|]. split; [reflexivity|]. split; [reflexivity|].
  split.
  - destruct Hquiet as [Hconnections _]; [reflexivity|constructor|].
    exact Hconnections.
  - destruct (Hfrozen eq_refl 3%nat) as [_ Hsame]. exact Hsame.
Defined.

Lemma getPort_finite_or_fallback_witness :
  @isFinite sampleRuntime (@Number sampleRuntime "8080") = true
  /\ @isFinite sampleRuntime (@getPort sampleRuntime "FIRESTORE" "8080") = true
  /\ (@getPort sampleRuntime "FIRESTORE" "8080" = @Number sampleRuntime "8080"
      \/ exists v,
           @env sampleRuntime
             ("NEXT_PUBLIC_FIREBASE_" ++ "FIRESTORE" ++ "_PORT")%string
           = Some v
           /\ v <> ""
           /\ @isFinite sampleRuntime (@Number sampleRuntime v) = true
           /\ @getPort sampleRuntime "FIRESTORE" "8080"
              = @Number sampleRuntime v).
Proof.
  split; [reflexivity|].
  destruct (@getPort_finite_or_fallback sampleRuntime "FIRESTORE" "8080")
    as [Hfinite Hvalue].
  split; [apply Hfinite; reflexivity|exact Hvalue].
Defined.


End FirebaseClientFacts.
